(** * Monitoring dashboard: view-state reducer and socket service

    A shallow embedding of the two pieces of logic of the dashboard:

    - [Panel]: the message handler of [MonitoringPanel]
      (components/MonitoringPanel.tsx), which folds decoded messages into
      the signal list and the metrics snapshot;
    - [WS]: the class [WebSocketService] (services/websocket.ts) together
      with the host events it reacts to (socket events, timers).

    Conventions.  A JavaScript [number] decoded from a JSON frame is a
    canonical rational [Qc]; on such values [===] is plain equality (JSON
    has no NaN).  Arrays are lists, with stdpp's lookup [!!] and in-place
    update [<[i:=x]>]. *)

From Stdlib Require Import ZArith Qcanon.
From stdpp Require Import base numbers list strings.

Local Open Scope Z_scope.

(** ** Wire types (types/trading.ts) *)

Definition number : Type := Qc.

Inductive SignalType := long | short.
Inductive MarginType := ISOLATED | CROSS.
Inductive Sentiment := bullish | bearish | neutral.

Record TradingSignal := {
  id : number;
  symbol : string;
  signal_type : SignalType;
  entry_price : number;
  current_price : number;
  target_price : number;
  stop_loss : number;
  accuracy : number;
  confidence : number;
  created_at : string;
  market_phase : string;
  validation_count : number;
  (* futures trading specific fields, all optional *)
  leverage : option number;
  margin_type : option MarginType;
  position_size : option number;
  trading_fee : option number;
  entry_fee : option number;
  exit_fee : option number;
  total_fee : option number;
  expected_profit : option number;
  liquidation_price : option number;
  funding_rate : option number;
  last_price : option number
}.

Record SystemMetrics := {
  overall_accuracy : number;
  total_signals : number;
  successful_predictions : number;
  average_confidence : number;
  market_sentiment : Sentiment
}.

(** The payload of a [market_data] message is typed [any]; the handlers
    modelled here never look inside it. *)
Record MarketData := {
  volatility : number;
  volume : number;
  sentiment : string
}.

(** [WebSocketMessage]: the [type] tag with the payload it announces. *)
Inductive WebSocketMessage :=
  | signal_update (data : TradingSignal)
  | metrics_update (data : SystemMetrics)
  | market_data (data : list (string * MarketData)).

(** [Array.prototype.findIndex]: the index of the first element that
    satisfies [p], or [-1]. *)
Fixpoint findIndex_from {A} (p : A → bool) (l : list A) (k : Z) : Z :=
  match l with
  | [] => -1
  | x :: l' => if p x then k else findIndex_from p l' (k + 1)
  end.

Definition findIndex {A} (p : A → bool) (l : list A) : Z :=
  findIndex_from p l 0.

(** ** The view-state reducer (MonitoringPanel.tsx) *)

Module Panel.

(** The two [useState] cells of the component. *)
Record State := {
  signals : list TradingSignal;
  metrics : option SystemMetrics
}.

Definition initial : State := {| signals := []; metrics := None |}.

(** The updater handed to [setSignals] in the [signal_update] case. *)
Definition upsert (signalData : TradingSignal) (prev : list TradingSignal)
  : list TradingSignal :=
  let updated := prev in
  let index := findIndex (λ s, bool_decide (id s = id signalData)) updated in
  if 0 <=? index
  then <[Z.to_nat index := signalData]> updated
  else updated ++ [signalData].

(** [handleMessage]: the [switch] on [message.type]; a tag without a
    [case] leaves the state as it is.  The [console.log] calls of the
    handler do not touch the state and are left out. *)
Definition handleMessage (st : State) (message : WebSocketMessage) : State :=
  match message with
  | signal_update signalData =>
      {| signals := upsert signalData (signals st); metrics := metrics st |}
  | metrics_update metricsData =>
      {| signals := signals st; metrics := Some metricsData |}
  | market_data _ => st
  end.

(** State updates are applied in the order the messages are handled. *)
Definition run (st : State) (messages : list WebSocketMessage) : State :=
  foldl handleMessage st messages.

(** The ids of a list of signals, in list order. *)
Definition ids (l : list TradingSignal) : list number := id <$> l.

(** The entries of [l] that carry the id [i]. *)
Definition with_id (i : number) (l : list TradingSignal) : list TradingSignal :=
  filter (λ s, id s = i) l.

(** The distinct elements of a list, each at the place of its first
    appearance. *)
Fixpoint first_appearances (l : list number) : list number :=
  match l with
  | [] => []
  | x :: l' => x :: filter (λ y, y ≠ x) (first_appearances l')
  end.

End Panel.

(** ** The socket service (services/websocket.ts) and its host *)

Module WS.

(** References: a callback, a [WebSocket] object and an array object are
    each known by their identity. *)
Definition handler : Type := nat.
Definition socket : Type := nat.
Definition loc : Type := nat.

Inductive ReadyState := CONNECTING | OPEN | CLOSING | CLOSED.

(** A [WebSocket] object of the host: its [readyState], and whether
    [setupEventHandlers] has assigned [onopen], [onmessage], [onclose]
    and [onerror] on it. *)
Record WebSocket := {
  readyState : ReadyState;
  wired : bool
}.

(** The public operations of the service. *)
Inductive Call :=
  | connect_call
  | disconnect_call
  | addMessageHandler_call (h : handler)
  | removeMessageHandler_call (h : handler).

(** What the run leaves behind for an observer, oldest first. *)
Inductive Obs :=
  | ConsoleLog (text : string)
  | ConsoleError (text : string)
  | Invoked (h : handler) (message : WebSocketMessage)
  | SetTimeout (delay : Z).

(** The service instance (first four fields) and the part of the host it
    touches: the heap of handler arrays, the sockets created so far, the
    pending timers (each one is [() => this.connect()], kept with its
    delay in milliseconds) and the observations. *)
Record World := {
  url : string;
  ws : option socket;
  reconnectAttempts : Z;
  messageHandlers : loc;
  arrays : list (list handler);
  sockets : list WebSocket;
  timers : list Z;
  trace : list Obs
}.

Definition maxReconnectAttempts : Z := 5.

(** [new WebSocketService(url)]: no socket, no attempts, an empty
    handler array. *)
Definition create (u : string) : World :=
  {| url := u; ws := None; reconnectAttempts := 0; messageHandlers := 0%nat;
     arrays := [[]]; sockets := []; timers := []; trace := [] |}.

Definition set_ws (v : option socket) (w : World) : World :=
  {| url := url w; ws := v; reconnectAttempts := reconnectAttempts w;
     messageHandlers := messageHandlers w; arrays := arrays w;
     sockets := sockets w; timers := timers w; trace := trace w |}.

Definition set_reconnectAttempts (v : Z) (w : World) : World :=
  {| url := url w; ws := ws w; reconnectAttempts := v;
     messageHandlers := messageHandlers w; arrays := arrays w;
     sockets := sockets w; timers := timers w; trace := trace w |}.

Definition set_messageHandlers (v : loc) (w : World) : World :=
  {| url := url w; ws := ws w; reconnectAttempts := reconnectAttempts w;
     messageHandlers := v; arrays := arrays w;
     sockets := sockets w; timers := timers w; trace := trace w |}.

Definition set_arrays (v : list (list handler)) (w : World) : World :=
  {| url := url w; ws := ws w; reconnectAttempts := reconnectAttempts w;
     messageHandlers := messageHandlers w; arrays := v;
     sockets := sockets w; timers := timers w; trace := trace w |}.

Definition set_sockets (v : list WebSocket) (w : World) : World :=
  {| url := url w; ws := ws w; reconnectAttempts := reconnectAttempts w;
     messageHandlers := messageHandlers w; arrays := arrays w;
     sockets := v; timers := timers w; trace := trace w |}.

Definition set_timers (v : list Z) (w : World) : World :=
  {| url := url w; ws := ws w; reconnectAttempts := reconnectAttempts w;
     messageHandlers := messageHandlers w; arrays := arrays w;
     sockets := sockets w; timers := v; trace := trace w |}.

Definition set_trace (v : list Obs) (w : World) : World :=
  {| url := url w; ws := ws w; reconnectAttempts := reconnectAttempts w;
     messageHandlers := messageHandlers w; arrays := arrays w;
     sockets := sockets w; timers := timers w; trace := v |}.

(** *** Computations: world passing with exceptions

    A computation ends normally with a value or by a [throw]; the
    changes made to the world before a [throw] stay. *)
Inductive Res (A : Type) :=
  | Ret (a : A)
  | Throw.
Arguments Ret {A} a.
Arguments Throw {A}.

Definition M (A : Type) : Type := World → World * Res A.

#[global] Instance M_ret : MRet M := λ A a w, (w, Ret a).

#[global] Instance M_bind : MBind M := λ A B f m w,
  match m w with
  | (w', Ret a) => f a w'
  | (w', Throw) => (w', Throw)
  end.

Definition throw {A} : M A := λ w, (w, Throw).

(** [try { body } catch { recover }] *)
Definition try_catch {A} (body recover : M A) : M A := λ w,
  match body w with
  | (w', Ret a) => (w', Ret a)
  | (w', Throw) => recover w'
  end.

Definition get : M World := λ w, (w, Ret w).
Definition modify (f : World → World) : M unit := λ w, (f w, Ret tt).
Definition emit (o : Obs) : M unit := modify (λ w, set_trace (trace w ++ [o]) w).

(** *** The host *)

(** The host is a parameter: which URLs [new WebSocket] accepts, what
    [JSON.parse] makes of a frame ([None]: it throws; otherwise the value,
    at the type [WebSocketMessage] the code casts it to), and what each
    registered callback does with a message: the operations it calls on
    the service, and whether it then throws. *)
Record Host := {
  WebSocket_accepts : string → bool;
  JSON_parse : string → option WebSocketMessage;
  behaviour : handler → WebSocketMessage → list Call * bool
}.

Section Service.

Context (host : Host).

(** [new WebSocket(url)]: throws on a URL the host rejects, otherwise
    a fresh object in state [CONNECTING]. *)
Definition new_WebSocket (u : string) : M socket := λ w,
  if WebSocket_accepts host u
  then (set_sockets (sockets w ++ [{| readyState := CONNECTING; wired := false |}]) w,
        Ret (length (sockets w)))
  else (w, Throw).

(** [socket.close()]: starts the closing handshake of a socket that is
    not yet closing or closed; the [close] event comes later. *)
Definition WebSocket_close (s : socket) : M unit :=
  modify (λ w,
    match sockets w !! s with
    | Some sk =>
        match readyState sk with
        | CONNECTING | OPEN =>
            set_sockets (<[s := {| readyState := CLOSING; wired := wired sk |}]> (sockets w)) w
        | CLOSING | CLOSED => w
        end
    | None => w
    end).

(** [setTimeout(() => this.connect(), delay)] *)
Definition setTimeout_connect (delay : Z) : M unit :=
  emit (SetTimeout delay) ;;
  modify (λ w, set_timers (timers w ++ [delay]) w).

Definition console_log (text : string) : M unit := emit (ConsoleLog text).
Definition console_error (text : string) : M unit := emit (ConsoleError text).

(** *** The methods of [WebSocketService] *)

Definition handleReconnect : M unit :=
  w ← get;
  if reconnectAttempts w <? maxReconnectAttempts then
    modify (λ w, set_reconnectAttempts (reconnectAttempts w + 1) w) ;;
    w ← get;
    setTimeout_connect (1000 * 2 ^ reconnectAttempts w)
  else mret tt.

(** [setupEventHandlers] assigns the four callbacks on [this.ws]. *)
Definition setupEventHandlers : M unit :=
  w ← get;
  match ws w with
  | None => mret tt
  | Some s =>
      modify (λ w,
        match sockets w !! s with
        | Some sk =>
            set_sockets (<[s := {| readyState := readyState sk; wired := true |}]> (sockets w)) w
        | None => w
        end)
  end.

Definition connect : M unit :=
  try_catch
    (w ← get;
     s ← new_WebSocket (url w);
     modify (set_ws (Some s)) ;;
     setupEventHandlers)
    (console_error "WebSocket connection error:" ;;
     handleReconnect).

(** [this.messageHandlers.push(handler)]: the array object is changed
    in place. *)
Definition addMessageHandler (h : handler) : M unit :=
  modify (λ w,
    match arrays w !! messageHandlers w with
    | Some hs => set_arrays (<[messageHandlers w := hs ++ [h]]> (arrays w)) w
    | None => w
    end).

(** [this.messageHandlers = this.messageHandlers.filter(h => h !== handler)]:
    [filter] builds a new array object and the field is pointed at it. *)
Definition removeMessageHandler (h : handler) : M unit :=
  modify (λ w,
    match arrays w !! messageHandlers w with
    | Some hs =>
        set_messageHandlers (length (arrays w))
          (set_arrays (arrays w ++ [filter (λ h', h' ≠ h) hs]) w)
    | None => w
    end).

Definition disconnect : M unit :=
  w ← get;
  match ws w with
  | Some s => WebSocket_close s ;; modify (set_ws None)
  | None => mret tt
  end.

Definition call (c : Call) : M unit :=
  match c with
  | connect_call => connect
  | disconnect_call => disconnect
  | addMessageHandler_call h => addMessageHandler h
  | removeMessageHandler_call h => removeMessageHandler h
  end.

Fixpoint calls (cs : list Call) : M unit :=
  match cs with
  | [] => mret tt
  | c :: cs' => call c ;; calls cs'
  end.

(** Calling the registered callback [h] with [message]. *)
Definition invoke (message : WebSocketMessage) (h : handler) : M unit :=
  emit (Invoked h message) ;;
  calls (behaviour host h message).1 ;;
  if (behaviour host h message).2 then throw else mret tt.

(** [Array.prototype.forEach] on the array object at [a]: the length is
    read once, before the first call; each element is read from the
    object when its turn comes. *)
Fixpoint forEach_from (a : loc) (callback : handler → M unit)
    (k : nat) (remaining : nat) : M unit :=
  match remaining with
  | O => mret tt
  | S remaining' =>
      w ← get;
      match arrays w !! a ≫= (λ hs : list handler, hs !! k) with
      | Some h => callback h
      | None => mret tt
      end ;;
      forEach_from a callback (S k) remaining'
  end.

Definition forEach (a : loc) (callback : handler → M unit) : M unit :=
  w ← get;
  match arrays w !! a with
  | Some hs => forEach_from a callback 0 (length hs)
  | None => throw
  end.

(** *** The callbacks installed by [setupEventHandlers] *)

Definition onopen : M unit :=
  console_log "WebSocket connected" ;;
  modify (set_reconnectAttempts 0).

Definition onmessage (data : string) : M unit :=
  try_catch
    (message ← (match JSON_parse host data with
                | Some m => mret m
                | None => throw
                end);
     w ← get;
     forEach (messageHandlers w) (invoke message))
    (console_error "Error parsing WebSocket message:").

Definition onclose : M unit :=
  console_log "WebSocket disconnected" ;;
  handleReconnect.

Definition onerror : M unit :=
  console_error "WebSocket error:".

(** *** Events

    What can happen to the service: a caller invokes a public
    operation, or the host fires an event on a socket or a timer. *)
Inductive Event :=
  | Api (c : Call)
  | Open (s : socket)
  | Message (s : socket) (data : string)
  | Error (s : socket)
  | Close (s : socket)
  | Timer (k : nat).

Definition set_readyState (s : socket) (r : ReadyState) : M unit :=
  modify (λ w,
    match sockets w !! s with
    | Some sk => set_sockets (<[s := {| readyState := r; wired := wired sk |}]> (sockets w)) w
    | None => w
    end).

Definition when_wired (sk : WebSocket) (callback : M unit) : M unit :=
  if wired sk then callback else mret tt.

(** One event.  [None]: the host cannot fire this event in this world
    (a socket opens once, from [CONNECTING]; frames arrive on an [OPEN]
    socket; a socket closes once; a timer fires once). *)
Definition step (e : Event) (w : World) : option (World * Res unit) :=
  match e with
  | Api c => Some (call c w)
  | Open s =>
      sk ← sockets w !! s;
      match readyState sk with
      | CONNECTING => Some ((set_readyState s OPEN ;; when_wired sk onopen) w)
      | _ => None
      end
  | Message s data =>
      sk ← sockets w !! s;
      match readyState sk with
      | OPEN => Some (when_wired sk (onmessage data) w)
      | _ => None
      end
  | Error s =>
      sk ← sockets w !! s;
      match readyState sk with
      | CLOSED => None
      | _ => Some (when_wired sk onerror w)
      end
  | Close s =>
      sk ← sockets w !! s;
      match readyState sk with
      | CLOSED => None
      | _ => Some ((set_readyState s CLOSED ;; when_wired sk onclose) w)
      end
  | Timer k =>
      _ ← timers w !! k;
      Some ((modify (λ w, set_timers (delete k (timers w)) w) ;; connect) w)
  end.

(** A run: the events one after the other.  An exception that escapes
    a callback would be reported by the host and the run goes on. *)
Fixpoint exec (es : list Event) (w : World) : option World :=
  match es with
  | [] => Some w
  | e :: es' =>
      match step e w with
      | Some (w', _) => exec es' w'
      | None => None
      end
  end.

End Service.

(** *** Observations on a world *)

Definition is_SetTimeout (o : Obs) : bool :=
  match o with SetTimeout _ => true | _ => false end.

(** The reconnection attempts scheduled so far. *)
Definition scheduled (w : World) : nat :=
  length (filter (λ o, is_SetTimeout o = true) (trace w)).

Definition invocation (o : Obs) : option (handler * WebSocketMessage) :=
  match o with Invoked h m => Some (h, m) | _ => None end.

(** The handler calls made so far, in order. *)
Definition invoked (w : World) : list (handler * WebSocketMessage) :=
  omap invocation (trace w).

Definition is_live (sk : WebSocket) : bool :=
  match readyState sk with
  | CONNECTING | OPEN => true
  | CLOSING | CLOSED => false
  end.

(** The connections that are being established or are established. *)
Definition live_connections (w : World) : nat :=
  length (filter (λ sk, is_live sk = true) (sockets w)).

(** The service holds a connection that is connecting or connected. *)
Definition connection_active (w : World) : bool :=
  match ws w with
  | Some s =>
      match sockets w !! s with
      | Some sk => is_live sk
      | None => false
      end
  | None => false
  end.

(** The handlers registered at the moment. *)
Definition registry (w : World) : option (list handler) :=
  arrays w !! messageHandlers w.

(** *** Delivery of one message *)

(** Whether the callback [h] throws on [m]. *)
Definition throws (host : Host) (m : WebSocketMessage) (h : handler) : bool :=
  (behaviour host h m).2.

(** The handlers of [hs] reached by a loop over [hs] that ends at the first
    one that throws. *)
Fixpoint upto_throw (host : Host) (m : WebSocketMessage) (hs : list handler)
  : list handler :=
  match hs with
  | [] => []
  | h :: hs' => h :: (if throws host m h then [] else upto_throw host m hs')
  end.

Definition any_throws (host : Host) (m : WebSocketMessage) (hs : list handler) : bool :=
  existsb (throws host m) hs.

(** *** Relations between a world and a later one *)

(** Array objects are never shortened or rewritten, only appended to. *)
Definition arrays_grow (w w' : World) : Prop :=
  ∀ a hs, arrays w !! a = Some hs → ∃ ys, arrays w' !! a = Some (hs ++ ys).

Definition registry_kept (w w' : World) : Prop :=
  arrays_grow w w' ∧ (is_Some (registry w) → is_Some (registry w')).

(** The retry counter only goes up, stays within the cap once within it,
    and each step up is one scheduled attempt. *)
Definition budget_kept (w w' : World) : Prop :=
  (reconnectAttempts w ≤ maxReconnectAttempts →
   reconnectAttempts w' ≤ maxReconnectAttempts) ∧
  reconnectAttempts w ≤ reconnectAttempts w' ∧
  Z.of_nat (scheduled w') - reconnectAttempts w' =
  Z.of_nat (scheduled w) - reconnectAttempts w.

(** Every socket is still there, in the same [readyState], with its
    callbacks if it had them. *)
Definition sockets_kept (w w' : World) : Prop :=
  ∀ s sk, sockets w !! s = Some sk →
    ∃ sk', sockets w' !! s = Some sk' ∧ readyState sk' = readyState sk ∧
           (wired sk = true → wired sk' = true).

(** The retries are used up, no timer is pending and no connection is
    being established or established. *)
Definition down (w : World) : Prop :=
  reconnectAttempts w = maxReconnectAttempts ∧
  timers w = [] ∧
  Forall (λ sk, is_live sk = false) (sockets w).

(** If every socket has its callbacks before, so after. *)
Definition wired_kept (w w' : World) : Prop :=
  Forall (λ sk, wired sk = true) (sockets w) →
  Forall (λ sk, wired sk = true) (sockets w').

(** What holds of every world a service can get into: the counter is
    within its bounds, the registry is an array, every socket has the
    callbacks of [setupEventHandlers]. *)
Definition well_formed (w : World) : Prop :=
  0 ≤ reconnectAttempts w ≤ maxReconnectAttempts ∧
  is_Some (registry w) ∧
  Forall (λ sk, wired sk = true) (sockets w).

End WS.

(** ** Sample inputs *)

Module Sample.

Definition num (z : Z) : number := Q2Qc (QArith_base.inject_Z z).

(** A BTC/USDT long signal with the given id and current price. *)
Definition btc (i price : Z) : TradingSignal :=
  {| id := num i; symbol := "BTC/USDT"; signal_type := long;
     entry_price := num 45000; current_price := num price;
     target_price := num 47000; stop_loss := num 44000;
     accuracy := num 89; confidence := num 95;
     created_at := "2024-01-17T12:00:00Z"; market_phase := "accumulation";
     validation_count := num 5;
     leverage := None; margin_type := None; position_size := None;
     trading_fee := None; entry_fee := None; exit_fee := None;
     total_fee := None; expected_profit := None; liquidation_price := None;
     funding_rate := None; last_price := None |}.

(** The same with a leverage, to see optional fields go on replacement. *)
Definition btc_leveraged (i price : Z) : TradingSignal :=
  {| id := num i; symbol := "BTC/USDT"; signal_type := long;
     entry_price := num 45000; current_price := num price;
     target_price := num 47000; stop_loss := num 44000;
     accuracy := num 89; confidence := num 95;
     created_at := "2024-01-17T12:00:00Z"; market_phase := "accumulation";
     validation_count := num 5;
     leverage := Some (num 10); margin_type := Some ISOLATED; position_size := None;
     trading_fee := None; entry_fee := None; exit_fee := None;
     total_fee := None; expected_profit := None; liquidation_price := None;
     funding_rate := None; last_price := None |}.

Definition metrics87 : SystemMetrics :=
  {| overall_accuracy := num 87; total_signals := num 100;
     successful_predictions := num 87; average_confidence := num 92;
     market_sentiment := bullish |}.

(** A host that accepts every URL and decodes two frames: ["metrics"] and
    ["stop"].  Callback 1 removes callback 2 from the registry whenever it
    is called; callback 3 throws on the ["stop"] message; every other
    callback does nothing. *)
Definition stop_message : WebSocketMessage := market_data [].

Definition host : WS.Host :=
  {| WS.WebSocket_accepts := λ _, true;
     WS.JSON_parse := λ data,
       if String.eqb data "metrics" then Some (metrics_update metrics87)
       else if String.eqb data "stop" then Some stop_message
       else None;
     WS.behaviour := λ h m,
       match h, m with
       | 1%nat, _ => ([WS.removeMessageHandler_call 2%nat], false)
       | 3%nat, market_data _ => ([], true)
       | _, _ => ([], false)
       end |}.

Definition endpoint : string := "ws://localhost:8000/ws".

(** A service with an established connection and no handler. *)
Definition connected : WS.World :=
  {| WS.url := endpoint; WS.ws := Some 0%nat; WS.reconnectAttempts := 0;
     WS.messageHandlers := 0%nat; WS.arrays := [[]];
     WS.sockets := [{| WS.readyState := WS.OPEN; WS.wired := true |}];
     WS.timers := []; WS.trace := [] |}.

(** The same with the callbacks 1, 2, 3 and 4 registered in this order. *)
Definition subscribed : WS.World :=
  WS.set_arrays [[1; 2; 3; 4]%nat] connected.

(** A service whose constructor has just run. *)
Definition fresh : WS.World := WS.create endpoint.

Definition closed_socket : WS.WebSocket :=
  {| WS.readyState := WS.CLOSED; WS.wired := true |}.

(** An unexpected close of the connection, then five reconnection
    attempts, each of which ends with the close of its socket. *)
Definition failing_run : list WS.Event :=
  [WS.Close 0; WS.Timer 0; WS.Close 1; WS.Timer 0; WS.Close 2; WS.Timer 0;
   WS.Close 3; WS.Timer 0; WS.Close 4; WS.Timer 0; WS.Close 5]%nat.

(** The world before the last event of [failing_run]: the fifth attempt
    is under way. *)
Definition last_attempt : WS.World :=
  {| WS.url := endpoint; WS.ws := Some 5%nat; WS.reconnectAttempts := 5;
     WS.messageHandlers := 0%nat; WS.arrays := [[]];
     WS.sockets := replicate 5 closed_socket ++
                   [{| WS.readyState := WS.CONNECTING; WS.wired := true |}];
     WS.timers := [];
     WS.trace :=
       [WS.ConsoleLog "WebSocket disconnected"; WS.SetTimeout 2000;
        WS.ConsoleLog "WebSocket disconnected"; WS.SetTimeout 4000;
        WS.ConsoleLog "WebSocket disconnected"; WS.SetTimeout 8000;
        WS.ConsoleLog "WebSocket disconnected"; WS.SetTimeout 16000;
        WS.ConsoleLog "WebSocket disconnected"; WS.SetTimeout 32000] |}.

(** The world [failing_run] leads to from [connected]. *)
Definition exhausted : WS.World :=
  {| WS.url := endpoint; WS.ws := Some 5%nat; WS.reconnectAttempts := 5;
     WS.messageHandlers := 0%nat; WS.arrays := [[]];
     WS.sockets := replicate 6 closed_socket;
     WS.timers := [];
     WS.trace :=
       [WS.ConsoleLog "WebSocket disconnected"; WS.SetTimeout 2000;
        WS.ConsoleLog "WebSocket disconnected"; WS.SetTimeout 4000;
        WS.ConsoleLog "WebSocket disconnected"; WS.SetTimeout 8000;
        WS.ConsoleLog "WebSocket disconnected"; WS.SetTimeout 16000;
        WS.ConsoleLog "WebSocket disconnected"; WS.SetTimeout 32000;
        WS.ConsoleLog "WebSocket disconnected"] |}.

(** Intentional shutdown of an established connection: [connect()], the
    socket opens, [disconnect()], then the host reports the close of the
    socket and the timer set meanwhile fires. *)
Definition shutdown_run : list WS.Event :=
  [WS.Api WS.connect_call; WS.Open 0; WS.Api WS.disconnect_call;
   WS.Close 0; WS.Timer 0]%nat.

(** [disconnect()] while a reconnection is pending: the connection was
    lost, a timer is set, then [disconnect()] is called and the timer
    fires. *)
Definition pending_run : list WS.Event :=
  [WS.Api WS.connect_call; WS.Open 0; WS.Close 0;
   WS.Api WS.disconnect_call; WS.Timer 0]%nat.

End Sample.

(** ** Reading a list of messages by kind *)

Module Messages.

(** The payload of a [signal_update] message. *)
Definition signal_payload (message : WebSocketMessage) : option TradingSignal :=
  match message with signal_update d => Some d | _ => None end.

(** The payload of a [metrics_update] message. *)
Definition metrics_payload (message : WebSocketMessage) : option SystemMetrics :=
  match message with metrics_update d => Some d | _ => None end.

End Messages.

(** ** The panel's use of the service (MonitoringPanel.tsx, [useEffect]) *)

Module Lifecycle.

Import WS.

(** [createWebSocketService]: the service for the page's host name. *)
Definition createWebSocketService (hostname : string) : World :=
  create ("ws://" +:+ hostname +:+ ":8000/ws").

Section Effect.

Context (host : Host).

(** The body of the effect: it registers the panel's handler, then
    connects. *)
Definition setup (handleMessage : handler) : M unit :=
  console_log "Setting up WebSocket connection..." ;;
  addMessageHandler handleMessage ;;
  connect host.

(** The function the effect returns, run when the panel goes away. *)
Definition cleanup (handleMessage : handler) : M unit :=
  console_log "Cleaning up WebSocket connection..." ;;
  removeMessageHandler handleMessage ;;
  disconnect.

End Effect.

(** A callback that calls nothing on the service and never throws, as the
    panel's [handleMessage] on the messages of the protocol. *)
Definition passive (host : Host) (h : handler) : Prop :=
  ∀ m, behaviour host h m = ([], false).

(** The handler calls that the frames [frames], arriving in this order,
    give rise to with the registry [hs]: of each frame that decodes, one
    call per registered handler. *)
Definition fan_out (host : Host) (hs : list handler) (frames : list string)
  : list (handler * WebSocketMessage) :=
  m ← omap (JSON_parse host) frames; (λ h, (h, m)) <$> hs.

(** What the delivery of one frame writes to the observations: the calls
    of the registered handlers with the decoded message, or the console
    error for a frame that does not decode. *)
Definition delivery_trace (host : Host) (hs : list handler) (data : string)
  : list Obs :=
  match JSON_parse host data with
  | Some m => (λ h, Invoked h m) <$> hs
  | None => [ConsoleError "Error parsing WebSocket message:"]
  end.



(** One outage with a successful reconnection: the open socket [k] is
    closed, the timer fires, the new socket [k + 1] opens. *)
Definition outage (k : nat) : list Event :=
  [Close k; Timer 0; Open (S k)].

(** [n] such outages in a row, starting with socket [k]. *)
Fixpoint outages (k n : nat) : list Event :=
  match n with
  | O => []
  | S n' => outage k ++ outages (S k) n'
  end.

(** The service is connected through its latest socket, number [k], no
    timer is pending and the retry counter is at zero. *)
Definition connected_at (host : Host) (k : nat) (w : World) : Prop :=
  WebSocket_accepts host (url w) = true ∧
  length (sockets w) = S k ∧
  sockets w !! k = Some {| readyState := OPEN; wired := true |} ∧
  timers w = [] ∧
  reconnectAttempts w = 0.

(** The delays of the reconnections scheduled so far, in order. *)
Definition delays (w : World) : list Z :=
  omap (λ o, match o with SetTimeout d => Some d | _ => None end) (trace w).

(** The URL of the service stays what it was. *)
Definition url_kept (w w' : World) : Prop := url w' = url w.

End Lifecycle.

(** ** The reconnecting hook (hooks/useWebSocket.ts) and its host *)

Module Hook.

Import WS.

(** A [WebSocket] object made by the hook: its [readyState] and the URL of
    the [connect] closure its callbacks belong to. *)
Record Socket := {
  readyState : ReadyState;
  target : string
}.

(** The hook instance and the part of the host it touches: the state cell
    [ws], the ref [reconnectTimeout] (a timer id, once one was stored), the
    effect in place (its [url] and the value of [ws] its clean-up closed
    over), the sockets made so far, the pending timers (the id [setTimeout]
    returned, and the URL of the [connect] they will call), the next timer
    id (ids start at 1), and the observations. *)
Record World := {
  ws : option socket;
  reconnectTimeout : option nat;
  effect : option (string * option socket);
  sockets : list Socket;
  timers : list (nat * string);
  next_timer : nat;
  trace : list Obs
}.

(** The first render: no socket in the state, nothing in the ref. *)
Definition initial : World :=
  {| ws := None; reconnectTimeout := None; effect := None; sockets := [];
     timers := []; next_timer := 1; trace := [] |}.

Definition set_ws (v : option socket) (w : World) : World :=
  {| ws := v; reconnectTimeout := reconnectTimeout w; effect := effect w;
     sockets := sockets w; timers := timers w; next_timer := next_timer w;
     trace := trace w |}.

Definition set_reconnectTimeout (v : option nat) (w : World) : World :=
  {| ws := ws w; reconnectTimeout := v; effect := effect w;
     sockets := sockets w; timers := timers w; next_timer := next_timer w;
     trace := trace w |}.

Definition set_effect (v : option (string * option socket)) (w : World) : World :=
  {| ws := ws w; reconnectTimeout := reconnectTimeout w; effect := v;
     sockets := sockets w; timers := timers w; next_timer := next_timer w;
     trace := trace w |}.

Definition set_sockets (v : list Socket) (w : World) : World :=
  {| ws := ws w; reconnectTimeout := reconnectTimeout w; effect := effect w;
     sockets := v; timers := timers w; next_timer := next_timer w;
     trace := trace w |}.

Definition set_timers (v : list (nat * string)) (w : World) : World :=
  {| ws := ws w; reconnectTimeout := reconnectTimeout w; effect := effect w;
     sockets := sockets w; timers := v; next_timer := next_timer w;
     trace := trace w |}.

Definition set_next_timer (v : nat) (w : World) : World :=
  {| ws := ws w; reconnectTimeout := reconnectTimeout w; effect := effect w;
     sockets := sockets w; timers := timers w; next_timer := v;
     trace := trace w |}.

Definition note (o : Obs) (w : World) : World :=
  {| ws := ws w; reconnectTimeout := reconnectTimeout w; effect := effect w;
     sockets := sockets w; timers := timers w; next_timer := next_timer w;
     trace := trace w ++ [o] |}.

Definition set_readyState (s : socket) (r : ReadyState) (w : World) : World :=
  match sockets w !! s with
  | Some sk => set_sockets (<[s := {| readyState := r; target := target sk |}]> (sockets w)) w
  | None => w
  end.

(** [clearTimeout(id)]: the timer, if it is still pending, will not fire. *)
Definition clearTimeout (id : nat) (w : World) : World :=
  set_timers (filter (λ t, t.1 ≠ id) (timers w)) w.

(** [if (reconnectTimeout.current) clearTimeout(reconnectTimeout.current)] *)
Definition clear_reconnectTimeout (w : World) : World :=
  match reconnectTimeout w with
  | Some id => clearTimeout id w
  | None => w
  end.

(** [socket.close()] *)
Definition WebSocket_close (s : socket) (w : World) : World :=
  match sockets w !! s with
  | Some sk =>
      match readyState sk with
      | CONNECTING | OPEN => set_readyState s CLOSING w
      | CLOSING | CLOSED => w
      end
  | None => w
  end.

Section Host.

(** Which URLs [new WebSocket] accepts. *)
Context (accepts : string → bool).

(** [connect]: a new socket for [url], with [onopen], [onclose] and
    [onerror] assigned.  The constructor may throw; nothing catches it. *)
Definition connect (u : string) (w : World) : World * Res unit :=
  if accepts u
  then (set_sockets (sockets w ++ [{| readyState := CONNECTING; target := u |}]) w,
        Ret tt)
  else (w, Throw).

(** [websocket.onopen] of the socket [s] *)
Definition onopen (s : socket) (w : World) : World :=
  clear_reconnectTimeout (set_ws (Some s) (note (ConsoleLog "WebSocket connected") w)).

(** [websocket.onclose], of a socket made by [connect] for the URL [u]:
    the reconnection is set 5 seconds ahead and its id kept in the ref. *)
Definition onclose (u : string) (w : World) : World :=
  let w1 := set_ws None (note (ConsoleLog "WebSocket disconnected") w) in
  let id := next_timer w1 in
  set_reconnectTimeout (Some id)
    (set_next_timer (S id)
       (set_timers (timers w1 ++ [(id, u)]) (note (SetTimeout 5000) w1))).

(** [websocket.onerror] *)
Definition onerror (w : World) : World :=
  note (ConsoleError "WebSocket error:") w.

(** The function the effect returns; [captured] is the [ws] of the render
    in which the effect ran. *)
Definition cleanup (captured : option socket) (w : World) : World :=
  clear_reconnectTimeout
    match captured with
    | Some s => WebSocket_close s w
    | None => w
    end.

(** The effect, run for the URL [u]: it connects, and its clean-up closes
    over the current [ws]. *)
Definition run_effect (u : string) (w : World) : World * Res unit :=
  match connect u w with
  | (w1, Ret _) => (set_effect (Some (u, ws w)) w1, Ret tt)
  | (w1, Throw) => (set_effect None w1, Throw)
  end.

(** What can happen: the component mounts, renders again with a URL,
    unmounts; the host fires an event on a socket or a timer. *)
Inductive Event :=
  | Mount (u : string)
  | Rerender (u : string)
  | Unmount
  | Open (s : socket)
  | Close (s : socket)
  | Error (s : socket)
  | Timer (id : nat).

(** One event; [None] when it cannot happen in this world.  The effect
    depends on [url] only: a render with the same URL leaves it in place,
    one with another URL runs the clean-up and then the effect again. *)
Definition step (e : Event) (w : World) : option (World * Res unit) :=
  match e with
  | Mount u =>
      match effect w with
      | None => Some (run_effect u w)
      | Some _ => None
      end
  | Rerender u =>
      match effect w with
      | Some (u0, captured) =>
          if decide (u = u0) then Some (w, Ret tt)
          else Some (run_effect u (cleanup captured w))
      | None => None
      end
  | Unmount =>
      match effect w with
      | Some (_, captured) => Some (set_effect None (cleanup captured w), Ret tt)
      | None => None
      end
  | Open s =>
      sk ← sockets w !! s;
      match readyState sk with
      | CONNECTING => Some (onopen s (set_readyState s OPEN w), Ret tt)
      | _ => None
      end
  | Close s =>
      sk ← sockets w !! s;
      match readyState sk with
      | CLOSED => None
      | _ => Some (onclose (target sk) (set_readyState s CLOSED w), Ret tt)
      end
  | Error s =>
      sk ← sockets w !! s;
      match readyState sk with
      | CLOSED => None
      | _ => Some (onerror w, Ret tt)
      end
  | Timer id =>
      t ← list_find (λ t : nat * string, t.1 = id) (timers w);
      Some (connect (t.2).2 (clearTimeout id w))
  end.

Fixpoint exec (es : list Event) (w : World) : option World :=
  match es with
  | [] => Some w
  | e :: es' =>
      match step e w with
      | Some (w', _) => exec es' w'
      | None => None
      end
  end.

End Host.

(** *** Observations *)

(** The delays of the reconnections scheduled so far. *)
Definition delays (w : World) : list Z :=
  omap (λ o, match o with SetTimeout d => Some d | _ => None end) (trace w).

Definition is_Close (e : Event) : bool :=
  match e with Close _ => true | _ => false end.

(** The close events of a run. *)
Definition closes (es : list Event) : nat :=
  length (filter (λ e, is_Close e = true) es).

(** Events of the sockets and timers only. *)
Definition host_event (e : Event) : bool :=
  match e with
  | Mount _ | Rerender _ | Unmount => false
  | _ => true
  end.

(** Where a mounted hook stands. *)
Inductive Phase :=
  | Connecting
  | Connected
  | Waiting (id : nat).

(** The hook, mounted for [u] and never rendered with another URL, is in
    phase [p]: every socket but the last one is closed; the last one is
    connecting, or it is open and is the [ws] the hook returns, or it is
    closed and the one pending timer is the one kept in the ref. *)
Definition in_phase (u : string) (w : World) (p : Phase) : Prop :=
  effect w = Some (u, None) ∧
  ∃ pre sk,
    sockets w = pre ++ [sk] ∧
    Forall (λ x, readyState x = CLOSED) pre ∧
    target sk = u ∧
    match p with
    | Connecting =>
        readyState sk = CONNECTING ∧ timers w = [] ∧ ws w = None
    | Connected =>
        readyState sk = OPEN ∧ timers w = [] ∧ ws w = Some (length pre)
    | Waiting id =>
        readyState sk = CLOSED ∧ timers w = [(id, u)] ∧
        reconnectTimeout w = Some id ∧ ws w = None
    end.

(** The phase after the event [e] of the host, taken in phase [p]. *)
Definition after (w : World) (p : Phase) (e : Event) : Phase :=
  match e with
  | Open _ => Connected
  | Close _ => Waiting (next_timer w)
  | Timer _ => Connecting
  | _ => p
  end.

End Hook.

(** ** The real-time monitor (components/RealTimeMonitor.tsx) *)

Module Monitor.

Import WS.

Record Signal := {
  id : number;
  symbol : string;
  signal_type : SignalType;
  entry_price : number;
  current_price : number;
  accuracy : number;
  confidence : number;
  created_at : string;
  market_phase : string;
  validation_count : number
}.

Record MonitoringStats := {
  average_accuracy : number;
  total_signals : number;
  active_signals : number;
  successful_predictions : number
}.

(** What [JSON.parse] can return, as far as the handler tells values
    apart: [null], on which reading [.type] throws; an object with one of
    the three tags and its payload; any other value. *)
Inductive Json :=
  | json_null
  | signals_update (signals : list Signal)
  | market_data (data : list (string * MarketData))
  | stats_update (stats : MonitoringStats)
  | json_other.

(** The three [useState] cells. *)
Record State := {
  activeSignals : list Signal;
  marketData : list (string * MarketData);
  stats : MonitoringStats
}.

Definition num0 : number := Q2Qc (QArith_base.inject_Z 0).

Definition initial : State :=
  {| activeSignals := []; marketData := [];
     stats := {| average_accuracy := num0; total_signals := num0;
                 active_signals := num0; successful_predictions := num0 |} |}.

Section Host.

(** [JSON.parse]; [None] when it throws. *)
Context (JSON_parse : string → option Json).

(** The [ws.onmessage] the component installs.  Nothing catches what
    [JSON.parse] or the read of [data.type] throws. *)
Definition onmessage (event_data : string) (st : State) : State * Res unit :=
  match JSON_parse event_data with
  | None => (st, Throw)
  | Some json_null => (st, Throw)
  | Some (signals_update signals) =>
      ({| activeSignals := signals; marketData := marketData st; stats := stats st |},
       Ret tt)
  | Some (market_data data) =>
      ({| activeSignals := activeSignals st; marketData := data; stats := stats st |},
       Ret tt)
  | Some (stats_update s) =>
      ({| activeSignals := activeSignals st; marketData := marketData st; stats := s |},
       Ret tt)
  | Some json_other => (st, Ret tt)
  end.

(** The frames handled one after the other; an exception ends the handling
    of its frame only. *)
Definition run (st : State) (frames : list string) : State :=
  foldl (λ st event_data, (onmessage event_data st).1) st frames.

Definition signals_of (event_data : string) : option (list Signal) :=
  match JSON_parse event_data with
  | Some (signals_update signals) => Some signals
  | _ => None
  end.

Definition market_data_of (event_data : string) : option (list (string * MarketData)) :=
  match JSON_parse event_data with
  | Some (market_data data) => Some data
  | _ => None
  end.

Definition stats_of (event_data : string) : option MonitoringStats :=
  match JSON_parse event_data with
  | Some (stats_update s) => Some s
  | _ => None
  end.

End Host.







End Monitor.

(** ** The socket of the tests (test/setup.ts) *)

Module Mock.

Import WS.

Definition callback : Type := nat.

(** The argument a callback is called with. *)
Inductive MockEvent :=
  | open_event
  | close_event
  | message_event (data : string).

(** The event names [addEventListener] tells apart; any other string is
    [other_name]. *)
Inductive EventName := open_name | close_name | message_name | error_name | other_name.

Record MockWebSocket := {
  url : string;
  readyState : ReadyState;
  onopen : option callback;
  onclose : option callback;
  onmessage : option callback;
  onerror : option callback;
  messageQueue : list string
}.

(** The socket, whether the timer set by its constructor has yet to fire,
    and the calls made to callbacks so far.  Callbacks are taken to return
    normally without touching the socket. *)
Record World := {
  socket : MockWebSocket;
  open_pending : bool;
  calls : list (callback * MockEvent)
}.

Definition set_readyState (r : ReadyState) (k : MockWebSocket) : MockWebSocket :=
  {| url := url k; readyState := r; onopen := onopen k; onclose := onclose k;
     onmessage := onmessage k; onerror := onerror k; messageQueue := messageQueue k |}.

Definition set_messageQueue (q : list string) (k : MockWebSocket) : MockWebSocket :=
  {| url := url k; readyState := readyState k; onopen := onopen k; onclose := onclose k;
     onmessage := onmessage k; onerror := onerror k; messageQueue := q |}.

(** Assignment to [onopen], [onclose], [onmessage] or [onerror]. *)
Definition assign (name : EventName) (c : option callback) (k : MockWebSocket)
  : MockWebSocket :=
  match name with
  | open_name =>
      {| url := url k; readyState := readyState k; onopen := c; onclose := onclose k;
         onmessage := onmessage k; onerror := onerror k; messageQueue := messageQueue k |}
  | close_name =>
      {| url := url k; readyState := readyState k; onopen := onopen k; onclose := c;
         onmessage := onmessage k; onerror := onerror k; messageQueue := messageQueue k |}
  | message_name =>
      {| url := url k; readyState := readyState k; onopen := onopen k; onclose := onclose k;
         onmessage := c; onerror := onerror k; messageQueue := messageQueue k |}
  | error_name =>
      {| url := url k; readyState := readyState k; onopen := onopen k; onclose := onclose k;
         onmessage := onmessage k; onerror := c; messageQueue := messageQueue k |}
  | other_name => k
  end.

Definition on_socket (f : MockWebSocket → MockWebSocket) (w : World) : World :=
  {| socket := f (socket w); open_pending := open_pending w; calls := calls w |}.

(** [if (cb) cb(event)] *)
Definition call_if_set (c : option callback) (event : MockEvent) (w : World) : World :=
  match c with
  | Some cb => {| socket := socket w; open_pending := open_pending w;
                  calls := calls w ++ [(cb, event)] |}
  | None => w
  end.

(** [new MockWebSocket(url)] *)
Definition construct (u : string) : World :=
  {| socket := {| url := u; readyState := CONNECTING; onopen := None; onclose := None;
                  onmessage := None; onerror := None; messageQueue := [] |};
     open_pending := true; calls := [] |}.

(** The [while] loop of [processMessageQueue] over the queue [q], with the
    handler [cb]: each message is shifted off, and passed on unless it is
    the empty string. *)
Fixpoint drain (cb : callback) (q : list string) (w : World) : World :=
  match q with
  | [] => w
  | data :: q' =>
      let w1 := on_socket (set_messageQueue q') w in
      drain cb q'
        (if String.eqb data "" then w1 else call_if_set (Some cb) (message_event data) w1)
  end.

Definition processMessageQueue (w : World) : World :=
  match readyState (socket w), onmessage (socket w) with
  | OPEN, Some cb => drain cb (messageQueue (socket w)) w
  | _, _ => w
  end.

(** The callback of the constructor's [setTimeout(..., 0)]. *)
Definition opening (w : World) : World :=
  let w1 := on_socket (set_readyState OPEN) w in
  let w2 := call_if_set (onopen (socket w1)) open_event w1 in
  processMessageQueue w2.

Definition close (w : World) : World :=
  let w1 := on_socket (set_readyState CLOSED) w in
  call_if_set (onclose (socket w1)) close_event w1.

Definition send (data : string) (w : World) : World :=
  match readyState (socket w) with
  | OPEN => call_if_set (onmessage (socket w)) (message_event data) w
  | _ => on_socket (λ k, set_messageQueue (messageQueue k ++ [data]) k) w
  end.

Definition addEventListener (event : EventName) (cb : callback) (w : World) : World :=
  on_socket (assign event (Some cb)) w.

(** The callback passed is not looked at. *)
Definition removeEventListener (event : EventName) (cb : callback) (w : World) : World :=
  on_socket (assign event None) w.

(** What a test, or the code under test, does with the socket; [Fire] is
    the host running the constructor's timer, once. *)
Inductive Op :=
  | Assign (name : EventName) (c : option callback)
  | AddEventListener (event : EventName) (cb : callback)
  | RemoveEventListener (event : EventName) (cb : callback)
  | Send (data : string)
  | CloseOp
  | Fire.

Definition step (w : World) (op : Op) : World :=
  match op with
  | Assign name c => on_socket (assign name c) w
  | AddEventListener event cb => addEventListener event cb w
  | RemoveEventListener event cb => removeEventListener event cb w
  | Send data => send data w
  | CloseOp => close w
  | Fire =>
      if open_pending w
      then opening {| socket := socket w; open_pending := false; calls := calls w |}
      else w
  end.

Definition exec (ops : list Op) (w : World) : World := foldl step w ops.

(** The data of the message events passed to callbacks so far. *)
Definition delivered (w : World) : list string :=
  omap (λ c : callback * MockEvent,
          match c.2 with message_event data => Some data | _ => None end) (calls w).

(** The data of the [send]s among [ops]. *)
Definition sent (ops : list Op) : list string :=
  omap (λ op, match op with Send data => Some data | _ => None end) ops.

End Mock.

(** ** More sample inputs *)

Module Sample2.

(** A host like [Sample.host] whose [WebSocket] constructor accepts only
    URLs of the [ws:] scheme. *)
Definition strict_host : WS.Host :=
  {| WS.WebSocket_accepts := String.prefix "ws://";
     WS.JSON_parse := WS.JSON_parse Sample.host;
     WS.behaviour := WS.behaviour Sample.host |}.

(** A URL without scheme. *)
Definition bad_url : string := "localhost:8000/ws".

(** [connect()] and then the timers, as often as one is pending: more
    timer events than the five retries would make [exec] fail. *)
Definition retry_run : list WS.Event :=
  [WS.Api WS.connect_call; WS.Timer 0; WS.Timer 0; WS.Timer 0; WS.Timer 0]%nat.

(** The connected service with the callbacks 4 and 5, which do nothing on
    the service and do not throw. *)
Definition watched : WS.World :=
  WS.set_arrays [[4; 5]%nat] Sample.connected.


Definition frames : list string := ["metrics"; "garbage"; "stop"; "metrics"].

(** The panel has mounted on a new service of its own (handler 4) and
    unmounts while the connection is up. *)
Definition mounted : WS.World :=
  (Lifecycle.setup Sample.host 4%nat
     (Lifecycle.createWebSocketService "localhost")).1.

(** After the clean-up: the socket's close event, the timer it sets, the
    opening of the new socket and a frame on it. *)
Definition after_cleanup_run : list WS.Event :=
  [WS.Close 0; WS.Timer 0; WS.Open 1; WS.Message 1 "metrics"]%nat.

(** A hook host that accepts every URL. *)
Definition any_url : string → bool := λ _, true.

(** The hook mounts, connects, and loses its connection seven times. *)
Definition hook_run : list Hook.Event :=
  [Hook.Mount Sample.endpoint; Hook.Open 0; Hook.Close 0; Hook.Timer 1;
   Hook.Close 1; Hook.Timer 2; Hook.Close 2; Hook.Timer 3; Hook.Close 3;
   Hook.Timer 4; Hook.Close 4; Hook.Timer 5; Hook.Close 5; Hook.Timer 6;
   Hook.Open 6; Hook.Close 6]%nat.

(** A decoder for the monitor: three known frames. *)
Definition monitor_stats : Monitor.MonitoringStats :=
  {| Monitor.average_accuracy := Sample.num 1; Monitor.total_signals := Sample.num 10;
     Monitor.active_signals := Sample.num 2; Monitor.successful_predictions := Sample.num 9 |}.

Definition monitor_parse (data : string) : option Monitor.Json :=
  if String.eqb data "stats" then Some (Monitor.stats_update monitor_stats)
  else if String.eqb data "signals" then Some (Monitor.signals_update [])
  else if String.eqb data "null" then Some Monitor.json_null
  else None.


(** The test socket with close and message handlers, not yet open. *)
Definition mock_socket : Mock.World :=
  Mock.exec [Mock.Assign Mock.close_name (Some 1%nat);
             Mock.Assign Mock.message_name (Some 2%nat)]
            (Mock.construct Sample.endpoint).

(** The test socket opened without a message handler, a message in its
    queue. *)
Definition mock_stuck : Mock.World :=
  Mock.exec [Mock.Send "early"; Mock.Fire] (Mock.construct Sample.endpoint).

End Sample2.

(** * Facts about the view-state reducer *)

Section PanelFacts.

Import Panel.

Lemma findIndex_from_none {A} (p : A → bool) l k :
  Forall (λ x, p x = false) l → findIndex_from p l k = -1.
Proof.
  intros H. revert k. induction H as [|x l Hx _ IH]; intros k; simpl; [done|].
  by rewrite Hx.
Qed.

Lemma findIndex_from_first {A} (p : A → bool) l1 x l2 k :
  Forall (λ y, p y = false) l1 → p x = true →
  findIndex_from p (l1 ++ x :: l2) k = k + Z.of_nat (length l1).
Proof.
  intros H Hx. revert k. induction H as [|y l1 Hy _ IH]; intros k; simpl.
  - rewrite Hx. lia.
  - rewrite Hy, IH. lia.
Qed.

(** Either no element satisfies [p], or the list splits at the first one
    that does. *)
Lemma first_split {A} (p : A → bool) (l : list A) :
  Forall (λ x, p x = false) l ∨
  (∃ l1 x l2, l = l1 ++ x :: l2 ∧ Forall (λ y, p y = false) l1 ∧ p x = true).
Proof.
  induction l as [|a l IH]; [by left|].
  destruct (p a) eqn:Ha.
  - right. by exists [], a, l.
  - destruct IH as [IH|(l1 & x & l2 & -> & H1 & Hx)].
    + left. by constructor.
    + right. exists (a :: l1), x, l2. repeat split; [by constructor|done].
Qed.

Lemma upsert_absent d prev :
  id d ∉ ids prev → upsert d prev = prev ++ [d].
Proof.
  intros Hd. unfold upsert, findIndex. rewrite findIndex_from_none; [done|].
  apply Forall_forall. intros s Hs. apply bool_decide_eq_false. intros E.
  apply Hd. rewrite <- E. unfold ids. by apply list_elem_of_fmap_2.
Qed.

Lemma upsert_first d l1 x l2 :
  id d ∉ ids l1 → id x = id d → upsert d (l1 ++ x :: l2) = l1 ++ d :: l2.
Proof.
  intros Hd Hx. unfold upsert, findIndex. rewrite findIndex_from_first.
  - replace (0 <=? 0 + Z.of_nat (length l1)) with true by (symmetry; apply Z.leb_le; lia).
    replace (Z.to_nat (0 + Z.of_nat (length l1))) with (length l1 + 0)%nat by lia.
    by rewrite insert_app_r.
  - apply Forall_forall. intros s Hs. apply bool_decide_eq_false. intros E.
    apply Hd. rewrite <- E. unfold ids. by apply list_elem_of_fmap_2.
  - by apply bool_decide_eq_true.
Qed.

(** The two cases of [upsert], by whether the id is already there. *)
Lemma upsert_cases d prev :
  ((id d ∉ ids prev) ∧ upsert d prev = prev ++ [d]) ∨
  (∃ l1 x l2, prev = l1 ++ x :: l2 ∧ (id d ∉ ids l1) ∧ id x = id d ∧
              upsert d prev = l1 ++ d :: l2).
Proof.
  destruct (first_split (λ s, bool_decide (id s = id d)) prev)
    as [H|(l1 & x & l2 & -> & H1 & Hx)].
  - assert (id d ∉ ids prev) as Hd.
    { unfold ids. intros (s & E & Hs)%list_elem_of_fmap.
      rewrite Forall_forall in H. specialize (H s Hs).
      apply bool_decide_eq_false in H. congruence. }
    left. split; [done|]. by apply upsert_absent.
  - assert (id d ∉ ids l1) as Hd.
    { unfold ids. intros (s & E & Hs)%list_elem_of_fmap.
      rewrite Forall_forall in H1. specialize (H1 s Hs).
      apply bool_decide_eq_false in H1. congruence. }
    apply bool_decide_eq_true in Hx.
    right. exists l1, x, l2. repeat split; try done. by apply upsert_first.
Qed.

Lemma ids_upsert d prev :
  ids (upsert d prev) =
  if decide (id d ∈ ids prev) then ids prev else ids prev ++ [id d].
Proof.
  destruct (upsert_cases d prev) as [[Hd ->]|(l1 & x & l2 & -> & Hd & Hx & ->)].
  - rewrite decide_False by done. unfold ids. by rewrite fmap_app.
  - rewrite decide_True.
    + unfold ids. rewrite !fmap_app, !fmap_cons. by rewrite Hx.
    + unfold ids. rewrite fmap_app, fmap_cons, Hx.
      apply elem_of_app. right. apply list_elem_of_here.
Qed.

Lemma first_appearances_snoc l x :
  first_appearances (l ++ [x]) =
  if decide (x ∈ first_appearances l) then first_appearances l
  else first_appearances l ++ [x].
Proof.
  induction l as [|a l IH]; cbn [first_appearances app].
  - rewrite decide_False; [done|]. apply not_elem_of_nil.
  - rewrite IH. clear IH.
    destruct (decide (x ∈ first_appearances l)) as [Hx|Hx];
      destruct (decide (x ∈ a :: filter (λ y, y ≠ a) (first_appearances l)))
        as [Hx'|Hx']; try done.
    + exfalso. apply Hx'. destruct (decide (x = a)) as [->|].
      * apply list_elem_of_here.
      * by apply list_elem_of_further, list_elem_of_filter.
    + rewrite filter_app.
      apply elem_of_cons in Hx' as [->|[? ?]%list_elem_of_filter]; [|done].
      rewrite filter_cons_False, filter_nil, app_nil_r; [done|]. naive_solver.
    + rewrite filter_app, filter_cons_True, filter_nil; [done|].
      intros ->. apply Hx', list_elem_of_here.
Qed.

Lemma elem_of_first_appearances l x : x ∈ first_appearances l ↔ x ∈ l.
Proof.
  induction l as [|a l IH]; simpl; [done|].
  rewrite !elem_of_cons, list_elem_of_filter, IH.
  destruct (decide (x = a)); tauto.
Qed.

Lemma NoDup_first_appearances l : NoDup (first_appearances l).
Proof.
  induction l as [|a l IH]; simpl; [constructor|].
  constructor.
  - intros [? _]%list_elem_of_filter. done.
  - by apply NoDup_filter.
Qed.

(** A run of [signal_update] messages only touches the signal list, by
    one [upsert] per message. *)
Lemma run_signal_updates st l :
  run st (signal_update <$> l) =
  {| signals := foldl (λ acc d, upsert d acc) (signals st) l; metrics := metrics st |}.
Proof.
  revert st. induction l as [|d l IH]; intros st; simpl.
  - by destruct st.
  - unfold run in *. simpl. by rewrite IH.
Qed.

Lemma ids_run l :
  ids (signals (run initial (signal_update <$> l))) = first_appearances (ids l).
Proof.
  rewrite run_signal_updates. simpl.
  induction l as [|d l IH] using rev_ind; [done|].
  rewrite foldl_app. simpl. rewrite ids_upsert, IH.
  assert (ids (l ++ [d]) = ids l ++ [id d]) as ->
    by (unfold ids; by rewrite fmap_app).
  by rewrite first_appearances_snoc.
Qed.


Lemma with_id_absent i l : i ∉ ids l → with_id i l = [].
Proof.
  unfold with_id, ids. induction l as [|s l IH]; intros Hi; [done|].
  rewrite fmap_cons, not_elem_of_cons in Hi. destruct Hi as [Hs Hl].
  rewrite filter_cons_False by congruence. by apply IH.
Qed.

Lemma with_id_app i l1 l2 : with_id i (l1 ++ l2) = with_id i l1 ++ with_id i l2.
Proof. apply filter_app. Qed.

Lemma with_id_cons i s l :
  with_id i (s :: l) = if decide (id s = i) then s :: with_id i l else with_id i l.
Proof.
  unfold with_id. case_decide.
  - by rewrite filter_cons_True.
  - by rewrite filter_cons_False.
Qed.

(** With distinct ids in the list, [upsert d] leaves exactly [d] under
    the id of [d] and does not touch what is stored under another id. *)
Lemma with_id_upsert i d prev :
  NoDup (ids prev) →
  with_id i (upsert d prev) = if decide (id d = i) then [d] else with_id i prev.
Proof.
  intros Hnd.
  destruct (upsert_cases d prev) as [[Hd ->]|(l1 & x & l2 & -> & Hd & Hx & ->)].
  - rewrite with_id_app, with_id_cons.
    change (with_id i []) with (@nil TradingSignal). case_decide as E.
    + subst i. by rewrite with_id_absent.
    + by rewrite app_nil_r.
  - unfold ids in Hnd. rewrite fmap_app, fmap_cons in Hnd.
    apply NoDup_app in Hnd as (_ & _ & [Hx2 _]%NoDup_cons).
    rewrite !with_id_app, !with_id_cons, Hx. case_decide as E; [|done].
    subst i. rewrite with_id_absent by done.
    rewrite with_id_absent; [done|]. by rewrite <- Hx.
Qed.

Lemma with_id_run i l :
  with_id i (signals (run initial (signal_update <$> l))) =
  option_list (last (with_id i l)).
Proof.
  induction l as [|d l IH] using rev_ind; [done|].
  pose proof (ids_run l) as Hids.
  rewrite run_signal_updates in *. simpl in *.
  rewrite foldl_app. simpl. rewrite with_id_upsert.
  - rewrite with_id_app, with_id_cons.
    change (with_id i []) with (@nil TradingSignal). case_decide.
    + by rewrite last_snoc.
    + by rewrite app_nil_r.
  - rewrite Hids. apply NoDup_first_appearances.
Qed.

Lemma length_first_appearances l :
  length (first_appearances l) = length (remove_dups l).
Proof.
  apply Permutation_length, NoDup_Permutation.
  - apply NoDup_first_appearances.
  - apply NoDup_remove_dups.
  - intros x. by rewrite elem_of_first_appearances, elem_of_remove_dups.
Qed.

Lemma upsert_at_first_match d prev k s :
  prev !! k = Some s → id s = id d →
  (∀ j s', (j < k)%nat → prev !! j = Some s' → id s' ≠ id d) →
  upsert d prev = <[k := d]> prev.
Proof.
  intros Hk Hs Hfirst.
  destruct (upsert_cases d prev) as [[Hd _]|(l1 & x & l2 & -> & Hd & Hx & ->)].
  - exfalso. apply Hd. rewrite <- Hs. unfold ids.
    apply list_elem_of_fmap_2, list_elem_of_lookup. eauto.
  - assert (k = length l1) as ->.
    { destruct (Nat.lt_trichotomy k (length l1)) as [Hlt|[?|Hgt]]; [|done|].
      - exfalso. apply Hd. rewrite <- Hs. unfold ids.
        rewrite lookup_app_l in Hk by done.
        apply list_elem_of_fmap_2, list_elem_of_lookup. eauto.
      - exfalso. apply (Hfirst (length l1) x Hgt); [|done].
        by rewrite list_lookup_middle. }
    replace (length l1) with (length l1 + 0)%nat at 1 by lia.
    by rewrite insert_app_r.
Qed.

End PanelFacts.

(** C1.  Starting from the empty signal list, after any sequence of
    [signal_update] messages the list holds, under each id, exactly the
    payload of the last message with that id (and nothing under an id that
    was not seen), and its length is the number of distinct ids of the
    sequence. *)
Theorem signal_updates_keep_last_per_id (l : list TradingSignal) :
  let st := Panel.run Panel.initial (signal_update <$> l) in
  (∀ i, Panel.with_id i (Panel.signals st) = option_list (last (Panel.with_id i l))) ∧
  length (Panel.signals st) = length (remove_dups (Panel.ids l)).
Proof.
  split.
  - intros i. apply with_id_run.
  - rewrite <- length_first_appearances, <- ids_run.
    unfold Panel.ids. by rewrite length_fmap.
Qed.

(** C7.  A [metrics_update] message makes its payload the metrics
    snapshot, whatever the snapshot was before (one or none), so nothing
    of the earlier snapshot survives; the signal list is not touched. *)
Theorem metrics_update_replaces_snapshot
    (st st' : Panel.State) (metricsData : SystemMetrics) :
  Panel.metrics (Panel.handleMessage st (metrics_update metricsData)) = Some metricsData ∧
  Panel.metrics (Panel.handleMessage st (metrics_update metricsData)) =
    Panel.metrics (Panel.handleMessage st' (metrics_update metricsData)) ∧
  Panel.signals (Panel.handleMessage st (metrics_update metricsData)) = Panel.signals st.
Proof. done. Qed.

(** C8.  A [signal_update] whose id is not in the list is appended at the
    end; one whose id is in the list replaces the first entry with that id
    where it stands: the length, and the entry at every other position, are
    as before.  In a list built from the empty one the ids are distinct and
    stand in the order of their first appearance in the messages. *)
Theorem signal_update_keeps_positions
    (st : Panel.State) (signalData : TradingSignal) (l : list TradingSignal) :
  let prev := Panel.signals st in
  let next := Panel.signals (Panel.handleMessage st (signal_update signalData)) in
  (id signalData ∉ Panel.ids prev → next = prev ++ [signalData]) ∧
  (∀ k s, prev !! k = Some s → id s = id signalData →
     (∀ j s', (j < k)%nat → prev !! j = Some s' → id s' ≠ id signalData) →
     next = <[k := signalData]> prev ∧
     length next = length prev ∧
     next !! k = Some signalData ∧
     ∀ j, j ≠ k → next !! j = prev !! j) ∧
  Panel.ids (Panel.signals (Panel.run Panel.initial (signal_update <$> l))) =
    Panel.first_appearances (Panel.ids l) ∧
  NoDup (Panel.ids (Panel.signals (Panel.run Panel.initial (signal_update <$> l)))).
Proof.
  cbn zeta.
  change (Panel.signals (Panel.handleMessage st (signal_update signalData)))
    with (Panel.upsert signalData (Panel.signals st)).
  split; [apply upsert_absent|]. split.
  - intros k s Hk Hs Hfirst.
    rewrite (upsert_at_first_match _ _ k s) by done.
    split; [done|]. split; [apply length_insert|]. split.
    + apply list_lookup_insert_eq. by eapply lookup_lt_Some.
    + intros j Hj. by apply list_lookup_insert_ne.
  - rewrite ids_run. split; [done|]. apply NoDup_first_appearances.
Qed.

(** * Facts about the socket service *)

Section ServiceFacts.

Import WS.
Context (host : Host).

Lemma insert_snoc {A} (l : list A) (x y : A) :
  <[length l := y]> (l ++ [x]) = l ++ [y].
Proof.
  replace (length l) with (length l + 0)%nat by lia. by rewrite insert_app_r.
Qed.

(** ** Each method as a function on worlds *)

Lemma handleReconnect_eq w :
  handleReconnect w =
  if reconnectAttempts w <? maxReconnectAttempts then
    (set_timers (timers w ++ [1000 * 2 ^ (reconnectAttempts w + 1)])
       (set_trace (trace w ++ [SetTimeout (1000 * 2 ^ (reconnectAttempts w + 1))])
          (set_reconnectAttempts (reconnectAttempts w + 1) w)), Ret tt)
  else (w, Ret tt).
Proof.
  unfold handleReconnect, mbind, M_bind, get.
  destruct (reconnectAttempts w <? maxReconnectAttempts); reflexivity.
Qed.

Lemma connect_eq w :
  connect host w =
  if WebSocket_accepts host (url w) then
    (set_sockets (sockets w ++ [{| readyState := CONNECTING; wired := true |}])
       (set_ws (Some (length (sockets w))) w), Ret tt)
  else handleReconnect (set_trace (trace w ++ [ConsoleError "WebSocket connection error:"]) w).
Proof.
  unfold connect, try_catch, mbind, M_bind, get, new_WebSocket.
  destruct (WebSocket_accepts host (url w)); [|reflexivity].
  unfold setupEventHandlers, modify, mbind, M_bind, get. simpl.
  rewrite lookup_app_r, Nat.sub_diag by done. simpl.
  by rewrite insert_snoc.
Qed.

Lemma disconnect_eq w :
  disconnect w =
  match ws w with
  | Some s =>
      (set_ws None
         match sockets w !! s with
         | Some sk =>
             if is_live sk
             then set_sockets (<[s := {| readyState := CLOSING; wired := wired sk |}]> (sockets w)) w
             else w
         | None => w
         end, Ret tt)
  | None => (w, Ret tt)
  end.
Proof.
  unfold disconnect, mbind, M_bind, get, WebSocket_close, modify, is_live.
  destruct (ws w) as [s|]; [|done].
  destruct (sockets w !! s) as [[[] ?]|]; reflexivity.
Qed.

(** ** The public operations end normally *)

Lemma handleReconnect_returns w : (handleReconnect w).2 = Ret tt.
Proof. rewrite handleReconnect_eq. by destruct (_ <? _). Qed.

Lemma call_returns c w : (call host c w).2 = Ret tt.
Proof.
  destruct c; simpl; [| |done..].
  - rewrite connect_eq. destruct (WebSocket_accepts _ _); [done|].
    apply handleReconnect_returns.
  - rewrite disconnect_eq. by destruct (ws w).
Qed.

Lemma calls_cons c cs w :
  calls host (c :: cs) w = calls host cs (call host c w).1.
Proof.
  simpl. unfold mbind, M_bind. pose proof (call_returns c w) as H.
  destruct (call host c w) as [w' r]. simpl in *. by subst r.
Qed.

Lemma calls_returns cs w : (calls host cs w).2 = Ret tt.
Proof.
  revert w. induction cs as [|c cs IH]; intros w; [done|].
  rewrite calls_cons. apply IH.
Qed.

(** What holds across each call holds across a sequence of calls. *)
Lemma calls_effect (R : relation World) `{!PreOrder R} (P : Call → Prop) :
  (∀ c w, P c → R w (call host c w).1) →
  ∀ cs w, Forall P cs → R w (calls host cs w).1.
Proof.
  intros Hcall cs. induction cs as [|c cs IH]; intros w Hcs.
  - simpl. reflexivity.
  - inversion_clear Hcs as [|?? Hc Hcs']. rewrite calls_cons.
    etrans; [by apply Hcall|]. by apply IH.
Qed.

(** ** The relations are preorders *)

#[local] Instance arrays_grow_preorder : PreOrder arrays_grow.
Proof.
  split.
  - intros w a hs H. exists []. by rewrite app_nil_r.
  - intros w1 w2 w3 H12 H23 a hs H.
    destruct (H12 a hs H) as [ys H2]. destruct (H23 a _ H2) as [zs H3].
    exists (ys ++ zs). by rewrite app_assoc.
Qed.

#[local] Instance registry_kept_preorder : PreOrder registry_kept.
Proof.
  split.
  - intros w. split; [reflexivity|done].
  - intros w1 w2 w3 [G12 H12] [G23 H23]. split; [by etrans|tauto].
Qed.

#[local] Instance budget_kept_preorder : PreOrder budget_kept.
Proof.
  split.
  - intros w. unfold budget_kept. lia.
  - intros w1 w2 w3. unfold budget_kept. lia.
Qed.

#[local] Instance sockets_kept_preorder : PreOrder sockets_kept.
Proof.
  split.
  - intros w s sk H. exists sk. done.
  - intros w1 w2 w3 H12 H23 s sk H.
    destruct (H12 s sk H) as (sk2 & H2 & E2 & W2).
    destruct (H23 s sk2 H2) as (sk3 & H3 & E3 & W3).
    exists sk3. split; [done|]. split; [congruence|tauto].
Qed.

(** ** What a public operation changes *)

Lemma scheduled_snoc w o :
  scheduled (set_trace (trace w ++ [o]) w) =
  (scheduled w + if is_SetTimeout o then 1 else 0)%nat.
Proof.
  unfold scheduled. simpl. rewrite filter_app, length_app.
  destruct o; simpl; reflexivity.
Qed.

Lemma invoked_snoc w o :
  invoked (set_trace (trace w ++ [o]) w) = invoked w ++ option_list (invocation o).
Proof.
  unfold invoked. simpl. rewrite omap_app. by destruct o.
Qed.

Lemma same_registry_kept w w' :
  arrays w' = arrays w → messageHandlers w' = messageHandlers w → registry_kept w w'.
Proof.
  intros Ha Hm. split.
  - intros a hs H. exists []. by rewrite app_nil_r, Ha.
  - unfold registry. by rewrite Ha, Hm.
Qed.

Lemma same_budget_kept w w' :
  trace w' = trace w → reconnectAttempts w' = reconnectAttempts w → budget_kept w w'.
Proof.
  intros Ht Hr. unfold budget_kept, scheduled. rewrite Ht, Hr. lia.
Qed.

Lemma same_sockets_kept w w' : sockets w' = sockets w → sockets_kept w w'.
Proof. intros E s sk H. exists sk. by rewrite E. Qed.

Lemma handleReconnect_registry_kept w : registry_kept w (handleReconnect w).1.
Proof.
  rewrite handleReconnect_eq. destruct (_ <? _); by apply same_registry_kept.
Qed.

Lemma handleReconnect_budget_kept w : budget_kept w (handleReconnect w).1.
Proof.
  rewrite handleReconnect_eq. destruct (_ <? _) eqn:E; [|reflexivity].
  apply Z.ltb_lt in E. unfold budget_kept.
  cbn [fst]. unfold scheduled. cbn [trace set_timers set_trace set_reconnectAttempts reconnectAttempts].
  rewrite filter_app, length_app. simpl. unfold maxReconnectAttempts in *. lia.
Qed.

Lemma handleReconnect_sockets w : sockets (handleReconnect w).1 = sockets w.
Proof. rewrite handleReconnect_eq. by destruct (_ <? _). Qed.

Lemma handleReconnect_invoked w : invoked (handleReconnect w).1 = invoked w.
Proof.
  rewrite handleReconnect_eq. destruct (_ <? _); [|done].
  unfold invoked. cbn. rewrite omap_app. cbn. by rewrite app_nil_r.
Qed.

Lemma call_registry_kept c w : registry_kept w (call host c w).1.
Proof.
  destruct c as [| |h|h]; simpl.
  - rewrite connect_eq. destruct (WebSocket_accepts _ _).
    + by apply same_registry_kept.
    + etrans; [|apply handleReconnect_registry_kept]. by apply same_registry_kept.
  - rewrite disconnect_eq. destruct (ws w) as [s|]; [|reflexivity].
    apply same_registry_kept; simpl; by destruct (sockets w !! s) as [[[] ?]|].
  - unfold addMessageHandler, modify. simpl.
    destruct (arrays w !! messageHandlers w) as [hs|] eqn:E; [|reflexivity].
    split.
    + intros a xs H. simpl. destruct (decide (a = messageHandlers w)) as [->|Hne].
      * exists [h]. rewrite list_lookup_insert_eq by (by eapply lookup_lt_Some).
        assert (Some hs = Some xs) as [= ->] by (rewrite <- E; exact H). done.
      * exists []. by rewrite app_nil_r, list_lookup_insert_ne.
    + intros _. unfold registry. simpl.
      rewrite list_lookup_insert_eq by (by eapply lookup_lt_Some). eauto.
  - unfold removeMessageHandler, modify. simpl.
    destruct (arrays w !! messageHandlers w) as [hs|] eqn:E; [|reflexivity].
    split.
    + intros a xs H. simpl. exists []. rewrite app_nil_r.
      by apply lookup_app_l_Some.
    + intros _. unfold registry. simpl.
      rewrite lookup_app_r, Nat.sub_diag by done. eauto.
Qed.

Lemma call_budget_kept c w : budget_kept w (call host c w).1.
Proof.
  destruct c as [| |h|h]; simpl.
  - rewrite connect_eq. destruct (WebSocket_accepts _ _).
    + by apply same_budget_kept.
    + etrans; [|apply handleReconnect_budget_kept].
      unfold budget_kept. rewrite scheduled_snoc. simpl. lia.
  - rewrite disconnect_eq. destruct (ws w) as [s|]; [|reflexivity].
    apply same_budget_kept; simpl; by destruct (sockets w !! s) as [[[] ?]|].
  - unfold addMessageHandler, modify. simpl.
    apply same_budget_kept; by destruct (arrays w !! messageHandlers w).
  - unfold removeMessageHandler, modify. simpl.
    apply same_budget_kept; by destruct (arrays w !! messageHandlers w).
Qed.

Lemma call_sockets_kept c w :
  c ≠ disconnect_call → sockets_kept w (call host c w).1.
Proof.
  intros Hc. destruct c as [| |h|h]; simpl; [|done|..].
  - rewrite connect_eq. destruct (WebSocket_accepts _ _).
    + intros s sk H. exists sk. simpl. split; [|done]. by apply lookup_app_l_Some.
    + intros s sk H. exists sk. by rewrite handleReconnect_sockets.
  - unfold addMessageHandler, modify. simpl.
    apply same_sockets_kept. by destruct (arrays w !! messageHandlers w).
  - unfold removeMessageHandler, modify. simpl.
    apply same_sockets_kept. by destruct (arrays w !! messageHandlers w).
Qed.

Lemma call_invoked c w : invoked (call host c w).1 = invoked w.
Proof.
  destruct c as [| |h|h]; simpl.
  - rewrite connect_eq. destruct (WebSocket_accepts _ _); [done|].
    rewrite handleReconnect_invoked, invoked_snoc. simpl. by rewrite app_nil_r.
  - rewrite disconnect_eq. destruct (ws w) as [s|]; [|done].
    simpl. by destruct (sockets w !! s) as [[[] ?]|].
  - unfold addMessageHandler, modify. simpl.
    by destruct (arrays w !! messageHandlers w).
  - unfold removeMessageHandler, modify. simpl.
    by destruct (arrays w !! messageHandlers w).
Qed.

Lemma calls_invoked cs w : invoked (calls host cs w).1 = invoked w.
Proof.
  revert w. induction cs as [|c cs IH]; intros w; [done|].
  by rewrite calls_cons, IH, call_invoked.
Qed.

(** ** Delivery of a message to the registered callbacks *)

Lemma invoke_eq m h w :
  invoke host m h w =
  ((calls host (behaviour host h m).1 (set_trace (trace w ++ [Invoked h m]) w)).1,
   if throws host m h then Throw else Ret tt).
Proof.
  unfold invoke, mbind, M_bind, emit, modify, throws.
  pose proof (calls_returns (behaviour host h m).1
                (set_trace (trace w ++ [Invoked h m]) w)) as Hr.
  destruct (calls host _ _) as [w1 r]. simpl in *. subst r.
  by destruct (behaviour host h m).2.
Qed.

Lemma forEach_from_S a (callback : handler → M unit) k n w l h :
  arrays w !! a = Some l → l !! k = Some h →
  forEach_from a callback k (S n) w =
  match callback h w with
  | (w', Ret _) => forEach_from a callback (S k) n w'
  | (w', Throw) => (w', Throw)
  end.
Proof.
  intros Ha Hk. cbn [forEach_from]. unfold mbind, M_bind, get.
  rewrite Ha. simpl. rewrite Hk. reflexivity.
Qed.

(** The loop of [forEach] over the array object [a], from index [k] on:
    whatever the callbacks do to the registry meanwhile, the callbacks
    called are those of the array as it was, in its order, up to the first
    one that throws. *)
Lemma forEach_from_spec (R : relation World) `{!PreOrder R} (P : Call → Prop)
    (m : WebSocketMessage) (a : loc) :
  (∀ c w, P c → R w (call host c w).1) →
  (∀ o w, is_SetTimeout o = false → R w (set_trace (trace w ++ [o]) w)) →
  ∀ n k w hs ys,
    arrays w !! a = Some (hs ++ ys) → (k + n = length hs)%nat →
    Forall (λ h, Forall P (behaviour host h m).1) (upto_throw host m (drop k hs)) →
    R w (forEach_from a (invoke host m) k n w).1 ∧
    registry_kept w (forEach_from a (invoke host m) k n w).1 ∧
    invoked (forEach_from a (invoke host m) k n w).1 =
      invoked w ++ ((λ h, (h, m)) <$> upto_throw host m (drop k hs)) ∧
    (forEach_from a (invoke host m) k n w).2 =
      (if any_throws host m (drop k hs) then Throw else Ret tt).
Proof.
  intros Hcall Hemit n.
  induction n as [|n IH]; intros k w hs ys Ha Hk HP.
  - rewrite drop_ge by lia. simpl. split; [reflexivity|]. split; [reflexivity|].
    split; [by rewrite app_nil_r|done].
  - destruct (lookup_lt_is_Some_2 hs k) as [h Hh]; [lia|].
    rewrite (drop_S _ _ _ Hh) in *.
    rewrite (forEach_from_S a _ k n w (hs ++ ys) h Ha)
      by (by apply lookup_app_l_Some).
    rewrite invoke_eq.
    set (w1 := (calls host (behaviour host h m).1
                  (set_trace (trace w ++ [Invoked h m]) w)).1).
    cbn [upto_throw any_throws existsb] in *.
    inversion_clear HP as [|?? Hh1 HP'].
    assert (R w w1) as HR.
    { trans (set_trace (trace w ++ [Invoked h m]) w); [by apply Hemit|].
      by apply (calls_effect R P). }
    assert (registry_kept w w1) as HK.
    { trans (set_trace (trace w ++ [Invoked h m]) w);
        [by apply same_registry_kept|].
      apply (calls_effect registry_kept (λ _, True)).
      - intros c w' _. apply call_registry_kept.
      - by apply Forall_true. }
    assert (invoked w1 = invoked w ++ [(h, m)]) as Hinv.
    { unfold w1. by rewrite calls_invoked, invoked_snoc. }
    destruct (throws host m h) eqn:Ht; cbn [orb fmap list_fmap].
    + done.
    + destruct (proj1 HK _ _ Ha) as [ys1 Ha1].
      rewrite <- app_assoc in Ha1.
      destruct (IH (S k) w1 hs (ys ++ ys1) Ha1 ltac:(lia) HP')
        as (IH1 & IH2 & IH3 & IH4).
      split; [by etrans|]. split; [by etrans|]. split; [|done].
      rewrite IH3, Hinv, <- app_assoc. done.
Qed.

Lemma onmessage_unparsed data w :
  JSON_parse host data = None →
  onmessage host data w =
  (set_trace (trace w ++ [ConsoleError "Error parsing WebSocket message:"]) w, Ret tt).
Proof.
  intros Hp. unfold onmessage, try_catch, mbind, M_bind. by rewrite Hp.
Qed.

Lemma onmessage_parsed data m w hs :
  JSON_parse host data = Some m → registry w = Some hs →
  onmessage host data w =
  match forEach_from (messageHandlers w) (invoke host m) 0 (length hs) w with
  | (w', Ret _) => (w', Ret tt)
  | (w', Throw) =>
      (set_trace (trace w' ++ [ConsoleError "Error parsing WebSocket message:"]) w',
       Ret tt)
  end.
Proof.
  intros Hp Hr. unfold onmessage, try_catch, mbind, M_bind, forEach, get.
  rewrite Hp. unfold mret, M_ret. unfold registry in Hr.
  unfold mbind, M_bind. rewrite Hr.
  destruct (forEach_from _ _ _ _ _) as [w' [[]|]]; reflexivity.
Qed.

Lemma onmessage_returns data w : (onmessage host data w).2 = Ret tt.
Proof.
  unfold onmessage, try_catch.
  match goal with
  | |- (match ?x with _ => _ end).2 = _ => destruct x as [w' [[]|]]
  end; reflexivity.
Qed.

(** Delivery of a decoded message, for a relation [R] kept by the calls
    the callbacks make and by writing an observation. *)
Lemma onmessage_spec (R : relation World) `{!PreOrder R} (P : Call → Prop)
    data m w hs :
  (∀ c w, P c → R w (call host c w).1) →
  (∀ o w, is_SetTimeout o = false → R w (set_trace (trace w ++ [o]) w)) →
  JSON_parse host data = Some m → registry w = Some hs →
  Forall (λ h, Forall P (behaviour host h m).1) (upto_throw host m hs) →
  R w (onmessage host data w).1 ∧
  registry_kept w (onmessage host data w).1 ∧
  invoked (onmessage host data w).1 =
    invoked w ++ ((λ h, (h, m)) <$> upto_throw host m hs) ∧
  (any_throws host m hs = true →
   last (trace (onmessage host data w).1) =
     Some (ConsoleError "Error parsing WebSocket message:")).
Proof.
  intros Hcall Hemit Hp Hr HP.
  rewrite (onmessage_parsed data m w hs Hp Hr).
  destruct (forEach_from_spec R P m (messageHandlers w) Hcall Hemit
              (length hs) 0%nat w hs [])
    as (H1 & H2 & H3 & H4).
  { by rewrite app_nil_r. }
  { done. }
  { by rewrite drop_0. }
  rewrite drop_0 in *.
  destruct (forEach_from _ _ _ _ _) as [w' [[]|]]; simpl in *.
  - repeat (split; [done|]). intros E. by rewrite E in H4.
  - split; [etrans; [exact H1|by apply Hemit]|].
    split; [etrans; [exact H2|by apply same_registry_kept]|].
    split; [by rewrite invoked_snoc, app_nil_r|].
    intros _. apply last_snoc.
Qed.

Lemma onmessage_no_registry data m w :
  JSON_parse host data = Some m → registry w = None →
  onmessage host data w =
  (set_trace (trace w ++ [ConsoleError "Error parsing WebSocket message:"]) w, Ret tt).
Proof.
  intros Hp Hr. unfold onmessage, try_catch, mbind, M_bind, forEach, get.
  rewrite Hp. unfold mret, M_ret. unfold registry in Hr.
  unfold mbind, M_bind. by rewrite Hr.
Qed.

Lemma upto_throw_all m hs :
  any_throws host m hs = false → upto_throw host m hs = hs.
Proof.
  induction hs as [|h hs IH]; [done|]. simpl.
  intros [Hh Hhs]%orb_false_elim. rewrite Hh. f_equal. by apply IH.
Qed.

Lemma upto_throw_thrower m pre h post :
  any_throws host m pre = false → throws host m h = true →
  upto_throw host m (pre ++ h :: post) = pre ++ [h].
Proof.
  intros Hpre Hh. induction pre as [|p pre IH]; simpl.
  - by rewrite Hh.
  - simpl in Hpre. apply orb_false_elim in Hpre as [Hp Hpre].
    rewrite Hp. f_equal. by apply IH.
Qed.

(** ** One event *)

Lemma step_Open s sk w :
  sockets w !! s = Some sk → readyState sk = CONNECTING → wired sk = true →
  step host (Open s) w =
  Some (set_reconnectAttempts 0
          (set_trace (trace w ++ [ConsoleLog "WebSocket connected"])
             (set_sockets (<[s := {| readyState := OPEN; wired := true |}]> (sockets w)) w)),
        Ret tt).
Proof.
  intros Hs Hr Hw. unfold step. rewrite Hs. simpl. rewrite Hr.
  unfold when_wired, set_readyState, modify, mbind, M_bind. rewrite Hs, Hw.
  reflexivity.
Qed.

Lemma step_Close s sk w :
  sockets w !! s = Some sk → readyState sk ≠ CLOSED →
  step host (Close s) w =
  Some (if wired sk
        then handleReconnect
               (set_trace (trace w ++ [ConsoleLog "WebSocket disconnected"])
                  (set_sockets (<[s := {| readyState := CLOSED; wired := wired sk |}]> (sockets w)) w))
        else (set_sockets (<[s := {| readyState := CLOSED; wired := wired sk |}]> (sockets w)) w,
              Ret tt)).
Proof.
  intros Hs Hr. unfold step. rewrite Hs. simpl.
  unfold when_wired, set_readyState, modify, mbind, M_bind. rewrite Hs.
  destruct (readyState sk); [| | |done]; by destruct (wired sk).
Qed.

Lemma step_Message s sk data w :
  sockets w !! s = Some sk → readyState sk = OPEN → wired sk = true →
  step host (Message s data) w = Some (onmessage host data w).
Proof.
  intros Hs Hr Hw. unfold step. rewrite Hs. simpl. rewrite Hr.
  unfold when_wired. by rewrite Hw.
Qed.

Lemma seq_returns (m1 m2 : M unit) w :
  (∀ w, (m1 w).2 = Ret tt) → (∀ w, (m2 w).2 = Ret tt) →
  ((m1 ;; m2) w).2 = Ret tt.
Proof.
  intros H1 H2. unfold mbind, M_bind. specialize (H1 w).
  destruct (m1 w) as [w1 [[]|]]; [apply H2|done].
Qed.

Lemma when_wired_returns sk (m : M unit) w :
  (∀ w, (m w).2 = Ret tt) → (when_wired sk m w).2 = Ret tt.
Proof. intros H. unfold when_wired. destruct (wired sk); [apply H|done]. Qed.

Lemma step_returns_snd e w x : step host e w = Some x → x.2 = Ret tt.
Proof.
  destruct e as [c|s|s data|s|s|k]; simpl.
  - intros [= <-]. apply call_returns.
  - destruct (sockets w !! s) as [sk|]; [simpl|done].
    destruct (readyState sk); [|done..]. intros [= <-].
    apply seq_returns; [done|]. intros w1. by apply when_wired_returns.
  - destruct (sockets w !! s) as [sk|]; [simpl|done].
    destruct (readyState sk); [done| |done..]. intros [= <-].
    apply when_wired_returns. apply onmessage_returns.
  - destruct (sockets w !! s) as [sk|]; [simpl|done].
    destruct (readyState sk); [| | |done]; intros [= <-];
      by apply when_wired_returns.
  - destruct (sockets w !! s) as [sk|]; [simpl|done].
    destruct (readyState sk); [| | |done]; intros [= <-];
      (apply seq_returns; [done|]; intros w1; apply when_wired_returns;
       intros w2; apply seq_returns; [done|apply handleReconnect_returns]).
  - destruct (timers w !! k) as [d|]; [simpl|done]. intros [= <-].
    apply seq_returns; [done|]. apply (call_returns connect_call).
Qed.

(** No exception escapes an event, be it a public operation or a callback
    of the host. *)
Lemma step_returns e w w' r : step host e w = Some (w', r) → r = Ret tt.
Proof. intros H. apply (step_returns_snd e w (w', r) H). Qed.

(** ** The retry budget *)

Lemma seq_effect (R : relation World) `{!PreOrder R} (m1 m2 : M unit) w :
  (∀ w, R w (m1 w).1) → (∀ w, R w (m2 w).1) → R w ((m1 ;; m2) w).1.
Proof.
  intros H1 H2. unfold mbind, M_bind. specialize (H1 w).
  destruct (m1 w) as [w1 [[]|]]; [|done]. etrans; [exact H1|apply H2].
Qed.

Lemma when_wired_effect (R : relation World) `{!PreOrder R} sk (m : M unit) w :
  (∀ w, R w (m w).1) → R w (when_wired sk m w).1.
Proof. intros H. unfold when_wired. destruct (wired sk); [apply H|reflexivity]. Qed.

Lemma note_budget_kept o w :
  is_SetTimeout o = false → budget_kept w (set_trace (trace w ++ [o]) w).
Proof.
  intros Ho. unfold budget_kept. rewrite scheduled_snoc, Ho. simpl. lia.
Qed.

Lemma onmessage_budget_kept data w : budget_kept w (onmessage host data w).1.
Proof.
  destruct (JSON_parse host data) as [m|] eqn:Hp.
  - destruct (registry w) as [hs|] eqn:Hr.
    + eapply (onmessage_spec budget_kept (λ _, True) data m w hs); try done.
      * intros c w' _. apply call_budget_kept.
      * apply note_budget_kept.
      * apply Forall_true. intros h. by apply Forall_true.
    + rewrite (onmessage_no_registry data m) by done. by apply note_budget_kept.
  - rewrite onmessage_unparsed by done. by apply note_budget_kept.
Qed.

Lemma set_readyState_budget_kept s r w : budget_kept w (set_readyState s r w).1.
Proof.
  unfold set_readyState, modify. simpl.
  apply same_budget_kept; by destruct (sockets w !! s).
Qed.

Lemma onclose_budget_kept w : budget_kept w (onclose w).1.
Proof.
  unfold onclose.
  apply seq_effect; [apply _| |apply handleReconnect_budget_kept].
  intros w1. by apply note_budget_kept.
Qed.

(** Every event but the opening of a socket keeps the budget. *)
Lemma step_budget_kept e w x :
  (∀ s, e ≠ Open s) → step host e w = Some x → budget_kept w x.1.
Proof.
  intros He. destruct e as [c|s|s data|s|s|k]; simpl.
  - intros [= <-]. apply call_budget_kept.
  - by destruct (He s).
  - destruct (sockets w !! s) as [sk|]; [simpl|done].
    destruct (readyState sk); [done| |done..]. intros [= <-].
    apply when_wired_effect; [apply _|]. apply onmessage_budget_kept.
  - destruct (sockets w !! s) as [sk|]; [simpl|done].
    destruct (readyState sk); [| | |done]; intros [= <-];
      (apply when_wired_effect; [apply _|]; intros w1; by apply note_budget_kept).
  - destruct (sockets w !! s) as [sk|]; [simpl|done].
    destruct (readyState sk); [| | |done]; intros [= <-];
      (apply seq_effect; [apply _|apply set_readyState_budget_kept|];
       intros w1; apply when_wired_effect; [apply _|]; apply onclose_budget_kept).
  - destruct (timers w !! k) as [d|]; [simpl|done]. intros [= <-].
    apply seq_effect; [apply _| |apply (call_budget_kept connect_call)].
    intros w1. by apply same_budget_kept.
Qed.

Lemma exec_budget_kept es w w' :
  (∀ s, Open s ∉ es) → exec host es w = Some w' → budget_kept w w'.
Proof.
  revert w. induction es as [|e es IH]; intros w Hes; simpl.
  - intros [= <-]. reflexivity.
  - destruct (step host e w) as [[w1 r]|] eqn:Hstep; [|done]. intros Hex.
    etrans.
    + apply (step_budget_kept e w (w1, r)); [|done].
      intros s ->. apply (Hes s), list_elem_of_here.
    + apply IH; [|done]. intros s Hs. apply (Hes s). by apply list_elem_of_further.
Qed.

(** ** The exhausted state *)

Lemma handleReconnect_exhausted w :
  reconnectAttempts w = maxReconnectAttempts → handleReconnect w = (w, Ret tt).
Proof. intros E. rewrite handleReconnect_eq, E. reflexivity. Qed.

Lemma down_not_live w s sk :
  down w → sockets w !! s = Some sk → is_live sk = false.
Proof.
  intros (_ & _ & Hall) Hs. by apply (Forall_lookup_1 _ _ _ _ Hall Hs).
Qed.

(** In the exhausted state an event other than a call of [connect] opens
    no socket, schedules nothing and calls no handler. *)
Lemma step_down e w x :
  down w → e ≠ Api connect_call → step host e w = Some x →
  down x.1 ∧ length (sockets x.1) = length (sockets w) ∧
  invoked x.1 = invoked w ∧ scheduled x.1 = scheduled w.
Proof.
  intros Hd He.
  pose proof Hd as (Hatt & Htim & Hall).
  destruct e as [c|s|s data|s|s|k].
  - destruct c as [| |h|h]; [done|..]; simpl; intros [= <-].
    + rewrite disconnect_eq. destruct (ws w) as [s|]; [|done]. simpl.
      destruct (sockets w !! s) as [sk|] eqn:Hs; [|done].
      by rewrite (down_not_live w s sk).
    + unfold addMessageHandler, modify. simpl.
      by destruct (arrays w !! messageHandlers w).
    + unfold removeMessageHandler, modify. simpl.
      by destruct (arrays w !! messageHandlers w).
  - simpl. destruct (sockets w !! s) as [sk|] eqn:Hs; [simpl|done].
    pose proof (down_not_live w s sk Hd Hs) as Hl. unfold is_live in Hl.
    by destruct (readyState sk).
  - simpl. destruct (sockets w !! s) as [sk|] eqn:Hs; [simpl|done].
    pose proof (down_not_live w s sk Hd Hs) as Hl. unfold is_live in Hl.
    by destruct (readyState sk).
  - simpl. destruct (sockets w !! s) as [sk|] eqn:Hs; [simpl|done].
    unfold when_wired, onerror, console_error, emit, modify.
    destruct (readyState sk); [| | |done]; intros [= <-];
      (destruct (wired sk); simpl; [|done]);
      rewrite ?scheduled_snoc, ?invoked_snoc; simpl;
      by rewrite ?app_nil_r, ?Nat.add_0_r.
  - destruct (sockets w !! s) as [sk|] eqn:Hs; [|by simpl; rewrite Hs].
    assert (readyState sk = CLOSED ∨ readyState sk ≠ CLOSED) as [Hc|Hc]
      by (destruct (readyState sk); auto).
    { simpl. rewrite Hs. simpl. by rewrite Hc. }
    rewrite (step_Close s sk w Hs Hc). intros [= <-].
    assert (Forall (λ sk0, is_live sk0 = false)
              (<[s:={| readyState := CLOSED; wired := wired sk |}]> (sockets w)))
      as Hall' by (by apply Forall_insert).
    destruct (wired sk).
    + rewrite handleReconnect_exhausted by done.
      unfold down, scheduled, invoked. simpl.
      rewrite filter_app, omap_app, length_app, length_insert. simpl.
      by rewrite app_nil_r, Nat.add_0_r.
    + simpl. by rewrite length_insert.
  - simpl. by rewrite Htim.
Qed.

Lemma exec_down es w w' :
  down w → Api connect_call ∉ es → exec host es w = Some w' →
  down w' ∧ length (sockets w') = length (sockets w) ∧
  invoked w' = invoked w ∧ scheduled w' = scheduled w.
Proof.
  revert w. induction es as [|e es IH]; intros w Hd Hes; simpl.
  - by intros [= <-].
  - destruct (step host e w) as [[w1 r]|] eqn:Hstep; [|done]. intros Hex.
    destruct (step_down e w (w1, r) Hd) as (Hd1 & Hl1 & Hi1 & Hs1); [|done|].
    { intros ->. apply Hes, list_elem_of_here. }
    destruct (IH w1 Hd1) as (Hd' & Hl' & Hi' & Hs'); [|done|].
    { intros H. by apply Hes, list_elem_of_further. }
    simpl in *. split; [done|]. split; [congruence|]. split; congruence.
Qed.

(** ** Worlds a service can get into *)

#[local] Instance wired_kept_preorder : PreOrder wired_kept.
Proof.
  split.
  - by intros w H.
  - intros w1 w2 w3 H12 H23 H. by apply H23, H12.
Qed.

Lemma same_wired_kept w w' : sockets w' = sockets w → wired_kept w w'.
Proof. intros E H. by rewrite E. Qed.

Lemma set_readyState_wired_kept s r w : wired_kept w (set_readyState s r w).1.
Proof.
  unfold set_readyState, modify. simpl. intros H.
  destruct (sockets w !! s) as [sk|] eqn:Hs; [|done]. simpl.
  apply Forall_insert; [done|]. by apply (Forall_lookup_1 _ _ _ _ H Hs).
Qed.

Lemma call_wired_kept c w : wired_kept w (call host c w).1.
Proof.
  destruct c as [| |h|h]; simpl.
  - rewrite connect_eq. destruct (WebSocket_accepts _ _).
    + intros H. simpl. apply Forall_app. split; [done|]. by repeat constructor.
    + apply same_wired_kept. by rewrite handleReconnect_sockets.
  - rewrite disconnect_eq. destruct (ws w) as [s|]; [|reflexivity]. simpl.
    destruct (sockets w !! s) as [sk|] eqn:Hs; [|by apply same_wired_kept].
    destruct (is_live sk); [|by apply same_wired_kept]. intros H. simpl.
    apply Forall_insert; [done|]. by apply (Forall_lookup_1 _ _ _ _ H Hs).
  - unfold addMessageHandler, modify. simpl.
    apply same_wired_kept. by destruct (arrays w !! messageHandlers w).
  - unfold removeMessageHandler, modify. simpl.
    apply same_wired_kept. by destruct (arrays w !! messageHandlers w).
Qed.

(** The message callback, for a relation kept by every call and by writing
    to the console or noting a handler call. *)
Lemma onmessage_effect (R : relation World) `{!PreOrder R} data w :
  (∀ c w, R w (call host c w).1) →
  (∀ o w, is_SetTimeout o = false → R w (set_trace (trace w ++ [o]) w)) →
  R w (onmessage host data w).1.
Proof.
  intros Hcall Hnote.
  destruct (JSON_parse host data) as [m|] eqn:Hp.
  - destruct (registry w) as [hs|] eqn:Hr.
    + destruct (onmessage_spec R (λ _, True) data m w hs) as [H _];
        [|exact Hnote|exact Hp|exact Hr| |exact H].
      * intros c w' _. apply Hcall.
      * apply Forall_true. intros h. by apply Forall_true.
    + rewrite (onmessage_no_registry data m) by done. by apply Hnote.
  - rewrite onmessage_unparsed by done. by apply Hnote.
Qed.

(** An event, for a relation kept by every call, by a change of
    [readyState], by the firing of a timer, by resetting or raising the
    counter and by an observation. *)
Lemma step_effect (R : relation World) `{!PreOrder R} e w x :
  (∀ c w, R w (call host c w).1) →
  (∀ o w, is_SetTimeout o = false → R w (set_trace (trace w ++ [o]) w)) →
  (∀ s r w, R w (set_readyState s r w).1) →
  (∀ k w, R w (set_timers (delete k (timers w)) w)) →
  (∀ w, R w (set_reconnectAttempts 0 w)) →
  (∀ w, R w (handleReconnect w).1) →
  step host e w = Some x → R w x.1.
Proof.
  intros Hcall Hnote Hready Htimer Hreset Hretry.
  destruct e as [c|s|s data|s|s|k]; simpl.
  - intros [= <-]. apply Hcall.
  - destruct (sockets w !! s) as [sk|]; [simpl|done].
    destruct (readyState sk); [|done..]. intros [= <-].
    apply seq_effect; [done|apply Hready|]. intros w1.
    apply when_wired_effect; [done|]. intros w2. unfold onopen.
    apply seq_effect; [done| |apply Hreset]. intros w3. by apply Hnote.
  - destruct (sockets w !! s) as [sk|]; [simpl|done].
    destruct (readyState sk); [done| |done..]. intros [= <-].
    apply when_wired_effect; [done|]. intros w1. by apply onmessage_effect.
  - destruct (sockets w !! s) as [sk|]; [simpl|done].
    destruct (readyState sk); [| | |done]; intros [= <-];
      (apply when_wired_effect; [done|]; intros w1; by apply Hnote).
  - destruct (sockets w !! s) as [sk|]; [simpl|done].
    destruct (readyState sk); [| | |done]; intros [= <-];
      (apply seq_effect; [done|apply Hready|];
       intros w1; apply when_wired_effect; [done|]; intros w2; unfold onclose;
       apply seq_effect; [done| |apply Hretry]; intros w3; by apply Hnote).
  - destruct (timers w !! k) as [d|]; [simpl|done]. intros [= <-].
    apply seq_effect; [done|apply Htimer|apply (Hcall connect_call)].
Qed.

Lemma step_registry_kept e w x : step host e w = Some x → registry_kept w x.1.
Proof.
  apply (step_effect registry_kept).
  - apply call_registry_kept.
  - intros o w0 _. by apply same_registry_kept.
  - intros s r w0. unfold set_readyState, modify. simpl.
    apply same_registry_kept; by destruct (sockets w0 !! s).
  - intros k w0. by apply same_registry_kept.
  - intros w0. by apply same_registry_kept.
  - apply handleReconnect_registry_kept.
Qed.

Lemma step_wired_kept e w x : step host e w = Some x → wired_kept w x.1.
Proof.
  apply (step_effect wired_kept).
  - apply call_wired_kept.
  - intros o w0 _. by apply same_wired_kept.
  - apply set_readyState_wired_kept.
  - intros k w0. by apply same_wired_kept.
  - intros w0. by apply same_wired_kept.
  - intros w0. apply same_wired_kept. apply handleReconnect_sockets.
Qed.

Lemma step_counter_bounds e w x :
  0 ≤ reconnectAttempts w ≤ maxReconnectAttempts → step host e w = Some x →
  0 ≤ reconnectAttempts x.1 ≤ maxReconnectAttempts.
Proof.
  intros Hb Hstep.
  assert ((∃ s, e = Open s) ∨ ∀ s, e ≠ Open s) as [[s ->]|He]
    by (destruct e; eauto).
  - simpl in Hstep. destruct (sockets w !! s) as [sk|] eqn:Hs; [simpl in Hstep|done].
    destruct (readyState sk); [|done..]. injection Hstep as <-.
    unfold set_readyState, when_wired, onopen, console_log, emit, modify, mbind, M_bind.
    rewrite Hs. destruct (wired sk); simpl; [done|lia].
  - destruct (step_budget_kept e w x He Hstep) as (H1 & H2 & _). lia.
Qed.

Lemma step_well_formed e w x :
  well_formed w → step host e w = Some x → well_formed x.1.
Proof.
  intros (Hb & Hr & Hw) Hstep. split; [by eapply step_counter_bounds|]. split.
  - by apply (step_registry_kept e w x Hstep).
  - by apply (step_wired_kept e w x Hstep).
Qed.

(** Every world reached from a new service is well formed. *)
Lemma reachable_well_formed u es w :
  exec host es (create u) = Some w → well_formed w.
Proof.
  assert (well_formed (create u)) as Hwf.
  { split; [done|]. split; [by eexists|constructor]. }
  revert Hwf. generalize (create u). induction es as [|e es IH]; intros w0 Hwf; simpl.
  - by intros [= <-].
  - destruct (step host e w0) as [[w1 r]|] eqn:Hstep; [|done].
    apply IH. by apply (step_well_formed e w0 (w1, r)).
Qed.

(** ** Delivery on an open socket *)

Lemma deliver_to_all w s sk data m hs :
  sockets w !! s = Some sk → readyState sk = OPEN → wired sk = true →
  JSON_parse host data = Some m →
  registry w = Some hs →
  any_throws host m hs = false →
  ∃ w', step host (Message s data) w = Some (w', Ret tt) ∧
        invoked w' = invoked w ++ ((λ h, (h, m)) <$> hs).
Proof.
  intros Hs Hr Hw Hp Hreg Hno.
  rewrite (step_Message s sk data w Hs Hr Hw).
  pose proof (onmessage_returns data w) as Hret.
  destruct (onmessage_spec registry_kept (λ _, True) data m w hs)
    as (_ & _ & Hinv & _); try done.
  - intros c w0 _. apply call_registry_kept.
  - intros o w0 _. by apply same_registry_kept.
  - apply Forall_true. intros h. by apply Forall_true.
  - destruct (onmessage host data w) as [w' r]. simpl in *. subst r.
    exists w'. split; [done|]. by rewrite Hinv, upto_throw_all.
Qed.

(** ** The claims about the connection *)

(** C3, as the code has it.  [connect()] does not look at the state: on a
    URL the host accepts, every call creates a new socket in state
    [CONNECTING] with the four callbacks, and makes it the current one;
    the sockets that were there stay as they were, so the number of live
    connections goes up by one and the service is active afterwards. *)
Theorem connect_opens_a_new_socket (w : World) :
  WebSocket_accepts host (url w) = true →
  connect host w =
    (set_sockets (sockets w ++ [{| readyState := CONNECTING; wired := true |}])
       (set_ws (Some (length (sockets w))) w), Ret tt) ∧
  live_connections (connect host w).1 = S (live_connections w) ∧
  connection_active (connect host w).1 = true.
Proof.
  intros Hacc. rewrite connect_eq, Hacc. split; [done|]. split.
  - unfold live_connections. simpl. rewrite filter_app, length_app. simpl. lia.
  - unfold connection_active. simpl.
    by rewrite lookup_app_r, Nat.sub_diag by done.
Qed.

(** C4.  As long as no socket opens, the attempts scheduled in a run are
    at most the cap of 5 less the attempts already counted (no hypothesis
    on the events besides that: closes, errors, timers, frames, calls).
    Once the counter is at 5, a close event schedules nothing, calls no
    handler and throws nothing; and from the state with the counter at 5,
    no timer pending and no live socket, no run without a call of
    [connect()] opens a socket, schedules an attempt or calls a handler. *)
Theorem reconnection_attempts_capped (es : list Event) (w w' : World) :
  exec host es w = Some w' →
  (0 ≤ reconnectAttempts w ≤ maxReconnectAttempts → (∀ s, Open s ∉ es) →
   Z.of_nat (scheduled w') - Z.of_nat (scheduled w)
     ≤ maxReconnectAttempts - reconnectAttempts w ≤ 5 ∧
   reconnectAttempts w' ≤ maxReconnectAttempts) ∧
  (reconnectAttempts w = maxReconnectAttempts →
   ∀ s w1 r, step host (Close s) w = Some (w1, r) →
     r = Ret tt ∧ scheduled w1 = scheduled w ∧ timers w1 = timers w ∧
     invoked w1 = invoked w ∧ reconnectAttempts w1 = maxReconnectAttempts) ∧
  (down w → Api connect_call ∉ es →
   down w' ∧ length (sockets w') = length (sockets w) ∧
   scheduled w' = scheduled w ∧ invoked w' = invoked w).
Proof.
  intros Hex. split; [|split].
  - intros Hle Hes. destruct (exec_budget_kept es w w' Hes Hex) as (H1 & H2 & H3).
    unfold maxReconnectAttempts in *. lia.
  - intros Hmax s w1 r Hstep.
    split; [by eapply step_returns|].
    destruct (sockets w !! s) as [sk|] eqn:Hs;
      [|by (simpl in Hstep; rewrite Hs in Hstep)].
    assert (readyState sk ≠ CLOSED) as Hc.
    { intros E. simpl in Hstep. rewrite Hs in Hstep. simpl in Hstep.
      by rewrite E in Hstep. }
    rewrite (step_Close s sk w Hs Hc) in Hstep. destruct (wired sk).
    + rewrite handleReconnect_exhausted in Hstep by done.
      injection Hstep as <- <-. unfold scheduled, invoked. simpl.
      rewrite filter_app, omap_app, length_app. simpl.
      by rewrite app_nil_r, Nat.add_0_r.
    + by injection Hstep as <- <-.
  - intros Hd Hes. destruct (exec_down es w w' Hd Hes Hex) as (? & ? & ? & ?).
    done.
Qed.

(** C5, as the code has it.  A close event on a socket (with the counter
    between 0 and 4) raises the counter by one and schedules the
    reconnection after 1000 * 2^n milliseconds, where n is the counter
    after the increment, that is the attempts made so far with this one;
    an open event sets the counter to zero. *)
Theorem backoff_delay_doubles (w : World) (s : socket) (sk : WebSocket) :
  sockets w !! s = Some sk → wired sk = true →
  (readyState sk ≠ CLOSED →
   0 ≤ reconnectAttempts w < maxReconnectAttempts →
   ∃ w', step host (Close s) w = Some (w', Ret tt) ∧
         reconnectAttempts w' = reconnectAttempts w + 1 ∧
         timers w' = timers w ++ [1000 * 2 ^ (reconnectAttempts w + 1)] ∧
         trace w' = trace w ++ [ConsoleLog "WebSocket disconnected";
                                SetTimeout (1000 * 2 ^ (reconnectAttempts w + 1))]) ∧
  (readyState sk = CONNECTING →
   ∃ w', step host (Open s) w = Some (w', Ret tt) ∧ reconnectAttempts w' = 0).
Proof.
  intros Hs Hw. split.
  - intros Hc [H0 Hlt]. rewrite (step_Close s sk w Hs Hc), Hw.
    rewrite handleReconnect_eq. simpl.
    apply Z.ltb_lt in Hlt. rewrite Hlt. eexists. split; [done|]. simpl.
    by rewrite <- app_assoc.
  - intros Hc. rewrite (step_Open s sk w Hs Hc Hw). eexists. by split.
Qed.

(** C6.  A frame that [JSON.parse] rejects, arriving on an open socket:
    the callback ends normally, and all it does is write the error to the
    console.  No handler is called, the sockets and the rest of the service
    are as before.  Beyond that, no public operation and no event ends
    with an exception. *)
Theorem unparsable_frame_is_dropped (w : World) (s : socket) (sk : WebSocket)
    (data : string) :
  sockets w !! s = Some sk → readyState sk = OPEN → wired sk = true →
  JSON_parse host data = None →
  step host (Message s data) w =
    Some (set_trace (trace w ++ [ConsoleError "Error parsing WebSocket message:"]) w,
          Ret tt) ∧
  (∀ w', step host (Message s data) w = Some (w', Ret tt) →
     invoked w' = invoked w ∧ sockets w' = sockets w ∧ ws w' = ws w ∧
     registry w' = registry w ∧ timers w' = timers w) ∧
  (∀ c w0, (call host c w0).2 = Ret tt) ∧
  (∀ e w0 w1 r, step host e w0 = Some (w1, r) → r = Ret tt).
Proof.
  intros Hs Hr Hw Hp.
  rewrite (step_Message s sk data w Hs Hr Hw), onmessage_unparsed by done.
  split; [done|]. split; [|split].
  - intros w' [= <-]. rewrite invoked_snoc. simpl. by rewrite app_nil_r.
  - apply call_returns.
  - apply step_returns.
Qed.


(** C10.  A callback that throws on a decoded message ends the delivery
    of that message: the callbacks before it and itself have been called,
    those after it are not.  The exception is caught in the message
    callback, which ends normally after writing to the console.  Unless
    one of the callbacks called has itself called [disconnect], the socket
    is still open with its callbacks, and a later frame that decodes is
    delivered to every callback of the registry (when none throws on it). *)
Theorem handler_exception_is_contained (w : World) (s : socket) (sk : WebSocket)
    (data : string) (m : WebSocketMessage) (pre : list handler) (h : handler)
    (post : list handler) :
  sockets w !! s = Some sk → readyState sk = OPEN → wired sk = true →
  JSON_parse host data = Some m →
  registry w = Some (pre ++ h :: post) →
  any_throws host m pre = false → throws host m h = true →
  Forall (λ h', disconnect_call ∉ (behaviour host h' m).1) (pre ++ [h]) →
  ∃ w', step host (Message s data) w = Some (w', Ret tt) ∧
    invoked w' = invoked w ++ ((λ h', (h', m)) <$> (pre ++ [h])) ∧
    last (trace w') = Some (ConsoleError "Error parsing WebSocket message:") ∧
    (∃ sk', sockets w' !! s = Some sk' ∧ readyState sk' = OPEN ∧ wired sk' = true) ∧
    ∃ hs', registry w' = Some hs' ∧
      ∀ data2 m2, JSON_parse host data2 = Some m2 →
        any_throws host m2 hs' = false →
        ∃ w'', step host (Message s data2) w' = Some (w'', Ret tt) ∧
               invoked w'' = invoked w' ++ ((λ h', (h', m2)) <$> hs').
Proof.
  intros Hs Hr Hw Hp Hreg Hpre Hh Hcalls.
  rewrite (step_Message s sk data w Hs Hr Hw).
  pose proof (onmessage_returns data w) as Hret.
  destruct (onmessage_spec sockets_kept (λ c, c ≠ disconnect_call) data m w
              (pre ++ h :: post))
    as (Hsock & Hkept & Hinv & Hlast); try done.
  - intros c w0. apply call_sockets_kept.
  - intros o w0 _. by apply same_sockets_kept.
  - rewrite upto_throw_thrower by done.
    eapply Forall_impl; [exact Hcalls|]. intros h' Hh'.
    apply Forall_forall. intros c Hc ->. done.
  - rewrite upto_throw_thrower in Hinv by done.
    destruct (onmessage host data w) as [w' r]. simpl in *. subst r.
    exists w'. split; [done|]. split; [done|]. split.
    { apply Hlast. unfold any_throws. rewrite existsb_app. simpl.
      rewrite Hh. by rewrite orb_true_r. }
    destruct (Hsock s sk Hs) as (sk' & Hs' & Hr' & Hw').
    split. { exists sk'. split; [done|]. split; [congruence|by apply Hw']. }
    destruct (proj2 Hkept) as [hs' Hreg']; [by rewrite Hreg|].
    exists hs'. split; [done|]. intros data2 m2 Hp2 Hno2.
    apply (deliver_to_all w' s sk'); try done; [congruence|by apply Hw'].
Qed.

End ServiceFacts.

(** * The claims on sample inputs *)

Import WS.

Section Samples.

Import Sample.

(** The scenario of the signal with id 1 sent twice: one entry, with the
    second price. *)
Example same_id_twice :
  Panel.signals (Panel.run Panel.initial
    [signal_update (btc 1 46000); signal_update (btc 1 47000)]) = [btc 1 47000].
Proof. vm_compute. reflexivity. Qed.

(** Replacement is wholesale: the optional fields of the earlier payload
    are gone. *)
Example replacement_drops_optional_fields :
  Panel.signals (Panel.run Panel.initial
    [signal_update (btc_leveraged 1 46000); signal_update (btc 2 3000);
     signal_update (btc 1 47000)]) = [btc 1 47000; btc 2 3000].
Proof. vm_compute. reflexivity. Qed.

(** The metrics scenario: the state holds exactly the object sent. *)
Example metrics_scenario :
  Panel.metrics (Panel.run Panel.initial [metrics_update metrics87]) = Some metrics87.
Proof. reflexivity. Qed.

(** The five attempts of [failing_run] and their delays. *)
Example failing_run_exhausts :
  exec host failing_run connected = Some exhausted.
Proof. vm_compute. reflexivity. Qed.

End Samples.

(** Witness of C8: a payload with a new id goes to the end, a payload with
    the id of the first entry takes its place. *)
Lemma signal_update_keeps_positions_witness :
  let st := {| Panel.signals := [Sample.btc_leveraged 1 46000; Sample.btc 2 3000];
               Panel.metrics := None |} in
  Panel.signals (Panel.handleMessage st (signal_update (Sample.btc 3 500))) =
    [Sample.btc_leveraged 1 46000; Sample.btc 2 3000; Sample.btc 3 500] ∧
  Panel.signals (Panel.handleMessage st (signal_update (Sample.btc 1 47000))) =
    [Sample.btc 1 47000; Sample.btc 2 3000].
Proof.
  intros st. split.
  - destruct (signal_update_keeps_positions st (Sample.btc 3 500) []) as [H _].
    apply H. apply (bool_decide_unpack _). vm_compute. exact I.
  - destruct (signal_update_keeps_positions st (Sample.btc 1 47000) [])
      as (_ & H & _).
    destruct (H 0%nat (Sample.btc_leveraged 1 46000)) as [-> _];
      [reflexivity|reflexivity| |reflexivity].
    intros j s' Hj. lia.
Defined.

(** C2 on the code.  After [disconnect()] and without any further call of
    [connect()], the close event of the socket sets a timer, and when it
    fires the service opens a new connection and holds it.  A timer that
    was pending when [disconnect()] was called is not cancelled either and
    reconnects as well. *)
Theorem disconnect_is_followed_by_reconnect :
  (∃ w', exec Sample.host Sample.shutdown_run Sample.fresh = Some w' ∧
         scheduled w' = 1%nat ∧
         sockets w' = [Sample.closed_socket;
                       {| readyState := CONNECTING; wired := true |}] ∧
         ws w' = Some 1%nat ∧ connection_active w' = true) ∧
  (∃ w1 w', exec Sample.host [Api connect_call; Open 0; Close 0]%nat Sample.fresh = Some w1 ∧
            timers w1 = [2000] ∧
            timers (disconnect w1).1 = [2000] ∧
            exec Sample.host Sample.pending_run Sample.fresh = Some w' ∧
            sockets w' = [Sample.closed_socket;
                          {| readyState := CONNECTING; wired := true |}] ∧
            connection_active w' = true).
Proof.
  split.
  - eexists. split; [vm_compute; reflexivity|]. by vm_compute.
  - eexists _, _. split; [vm_compute; reflexivity|].
    split; [reflexivity|]. split; [reflexivity|].
    split; [vm_compute; reflexivity|]. by vm_compute.
Qed.

(** C3 fails as stated: with a connection established, [connect()] is not
    a no-op; it leaves two live connections where there was one. *)
Lemma connect_while_connected_opens_second :
  connection_active Sample.connected = true ∧
  live_connections Sample.connected = 1%nat ∧
  connect Sample.host Sample.connected ≠ (Sample.connected, Ret tt) ∧
  live_connections (connect Sample.host Sample.connected).1 = 2%nat.
Proof.
  split; [reflexivity|]. split; [reflexivity|]. split; [|reflexivity].
  intros H. apply (f_equal (λ x, length (sockets x.1))) in H. discriminate H.
Qed.

(** Witness of C3 as amended: a call of [connect()] on the connected
    service. *)
Lemma connect_opens_a_new_socket_witness :
  WebSocket_accepts Sample.host (url Sample.connected) = true ∧
  live_connections (connect Sample.host Sample.connected).1 =
    S (live_connections Sample.connected).
Proof.
  split; [reflexivity|].
  apply (connect_opens_a_new_socket Sample.host Sample.connected). reflexivity.
Defined.

(** Witness of C4: the run of five failed attempts, the close of the last
    socket, and a run from the exhausted state. *)
Lemma reconnection_attempts_capped_witness :
  (Z.of_nat (scheduled Sample.exhausted) - Z.of_nat (scheduled Sample.connected)
     ≤ maxReconnectAttempts - reconnectAttempts Sample.connected ≤ 5) ∧
  (∀ w1 r, step Sample.host (Close 5%nat) Sample.last_attempt = Some (w1, r) →
     r = Ret tt ∧ scheduled w1 = 5%nat ∧ timers w1 = [] ∧ invoked w1 = []) ∧
  (∀ w', exec Sample.host [Close 5; Api disconnect_call; Api (addMessageHandler_call 1)]%nat
           Sample.exhausted = Some w' →
         down w' ∧ length (sockets w') = 6%nat ∧ scheduled w' = 5%nat ∧ invoked w' = []).
Proof.
  split; [|split].
  - destruct (reconnection_attempts_capped Sample.host Sample.failing_run
                Sample.connected Sample.exhausted) as [H _].
    + vm_compute. reflexivity.
    + apply H.
      * unfold maxReconnectAttempts. simpl. lia.
      * intros s Hs. unfold Sample.failing_run in Hs.
        repeat (apply elem_of_cons in Hs as [Hs|Hs]; [discriminate Hs|]).
        by apply elem_of_nil in Hs.
  - intros w1 r Hstep.
    destruct (reconnection_attempts_capped Sample.host [Close 5%nat]
                Sample.last_attempt Sample.exhausted) as (_ & H & _).
    + vm_compute. reflexivity.
    + destruct (H eq_refl 5%nat w1 r Hstep) as (H1 & H2 & H3 & H4 & _).
      split; [exact H1|]. split; [exact H2|]. split; [exact H3|exact H4].
  - intros w' Hex.
    destruct (reconnection_attempts_capped Sample.host _ _ _ Hex) as (_ & _ & H).
    apply H.
    + split; [reflexivity|]. split; [reflexivity|].
      unfold Sample.exhausted. simpl. repeat constructor.
    + intros Hs.
      repeat (apply elem_of_cons in Hs as [Hs|Hs]; [discriminate Hs|]).
      by apply elem_of_nil in Hs.
Defined.

(** C5 fails as stated: with no attempt made yet, the first attempt is set
    2000 ms ahead, not 1000 * 2^0 = 1000 ms. *)
Lemma first_delay_is_twice_the_base :
  reconnectAttempts Sample.connected = 0 ∧
  ∃ w', step Sample.host (Close 0%nat) Sample.connected = Some (w', Ret tt) ∧
        timers w' = [2000] ∧
        timers w' ≠ [1000 * 2 ^ reconnectAttempts Sample.connected].
Proof.
  split; [reflexivity|]. eexists. split; [vm_compute; reflexivity|].
  split; [reflexivity|]. discriminate.
Qed.

(** Witness of C5 as amended: the first close of the connected service,
    and the opening of the socket of a new service. *)
Lemma backoff_delay_doubles_witness :
  (∃ w', step Sample.host (Close 0%nat) Sample.connected = Some (w', Ret tt) ∧
         reconnectAttempts w' = 1 ∧ timers w' = [2000]) ∧
  (∃ w', step Sample.host (Open 0%nat) (connect Sample.host Sample.fresh).1
           = Some (w', Ret tt) ∧ reconnectAttempts w' = 0).
Proof.
  split.
  - destruct (backoff_delay_doubles Sample.host Sample.connected 0%nat
                {| readyState := OPEN; wired := true |}) as [H _];
      [reflexivity|reflexivity|].
    destruct H as (w' & H1 & H2 & H3 & _); [discriminate| |].
    + unfold maxReconnectAttempts. simpl. lia.
    + exists w'. split; [exact H1|]. split; [exact H2|exact H3].
  - destruct (backoff_delay_doubles Sample.host (connect Sample.host Sample.fresh).1
                0%nat {| readyState := CONNECTING; wired := true |}) as [_ H];
      [reflexivity|reflexivity|].
    apply H. reflexivity.
Defined.

(** Witness of C6: a frame the sample host cannot decode. *)
Lemma unparsable_frame_is_dropped_witness :
  JSON_parse Sample.host "garbage" = None ∧
  step Sample.host (Message 0%nat "garbage") Sample.subscribed =
    Some (set_trace [ConsoleError "Error parsing WebSocket message:"] Sample.subscribed,
          Ret tt).
Proof.
  split; [reflexivity|].
  exact (proj1 (unparsable_frame_is_dropped Sample.host Sample.subscribed 0%nat
                  {| readyState := OPEN; wired := true |} "garbage"
                  eq_refl eq_refl eq_refl eq_refl)).
Defined.


(** Witness of C10: callback 3 throws on the stop message, callback 4 is
    not called; the next frame goes to the callbacks then registered. *)
Lemma handler_exception_is_contained_witness :
  let m := metrics_update Sample.metrics87 in
  ∃ w', step Sample.host (Message 0%nat "stop") Sample.subscribed = Some (w', Ret tt) ∧
        invoked w' = [(1, Sample.stop_message); (2, Sample.stop_message);
                      (3, Sample.stop_message)]%nat ∧
        last (trace w') = Some (ConsoleError "Error parsing WebSocket message:") ∧
        ∃ w'', step Sample.host (Message 0%nat "metrics") w' = Some (w'', Ret tt) ∧
               invoked w'' = invoked w' ++ [(1, m); (3, m); (4, m)]%nat.
Proof.
  intros m.
  destruct (handler_exception_is_contained Sample.host Sample.subscribed 0%nat
              {| readyState := OPEN; wired := true |} "stop" Sample.stop_message
              [1; 2]%nat 3%nat [4]%nat)
    as (w' & Hstep & Hinv & Hlast & _ & hs' & Hreg & Hnext); try reflexivity.
  { repeat constructor; simpl; intros H;
      repeat (apply elem_of_cons in H as [H|H]; [discriminate H|]);
      by apply elem_of_nil in H. }
  exists w'. split; [exact Hstep|]. split; [exact Hinv|]. split; [exact Hlast|].
  assert (hs' = [1; 3; 4]%nat) as ->.
  { vm_compute in Hstep. injection Hstep as <-. vm_compute in Hreg. congruence. }
  apply (Hnext "metrics" m); reflexivity.
Defined.

(** * Further facts about the view-state reducer *)

Section PanelExtras.

Import Panel.

Lemma upsert_idempotent d prev : upsert d (upsert d prev) = upsert d prev.
Proof.
  destruct (upsert_cases d prev) as [[Hd ->]|(l1 & x & l2 & -> & Hd & Hx & ->)].
  - by rewrite (upsert_first d prev d []).
  - by rewrite (upsert_first d l1 d l2).
Qed.

Lemma ids_upsert_prefix d prev : ids prev `prefix_of` ids (upsert d prev).
Proof.
  rewrite ids_upsert. case_decide; [done|]. by apply prefix_app_r.
Qed.

Lemma NoDup_ids_upsert d prev : NoDup (ids prev) → NoDup (ids (upsert d prev)).
Proof.
  intros Hnd. rewrite ids_upsert. case_decide as Hd; [done|].
  apply NoDup_app. split; [done|]. split; [|apply NoDup_singleton].
  intros i Hi ->%list_elem_of_singleton. done.
Qed.

Lemma run_snoc st messages message :
  run st (messages ++ [message]) = handleMessage (run st messages) message.
Proof. unfold run. by rewrite foldl_app. Qed.

End PanelExtras.

(** X1.  Handling the same message twice in a row leaves the state that
    handling it once leaves, for every kind of message and every state: a
    frame delivered twice does no harm. *)
Theorem handleMessage_idempotent (st : Panel.State) (message : WebSocketMessage) :
  Panel.handleMessage (Panel.handleMessage st message) message =
  Panel.handleMessage st message.
Proof.
  destruct message as [d|d|d]; simpl; [|done..].
  by rewrite upsert_idempotent.
Qed.

(** X2.  No message removes or moves a signal: after any messages, the ids
    the list had are still there, at the same positions, so the list never
    gets shorter. *)
Theorem signals_are_never_removed (st : Panel.State) (messages : list WebSocketMessage) :
  Panel.ids (Panel.signals st) `prefix_of`
    Panel.ids (Panel.signals (Panel.run st messages)) ∧
  (length (Panel.signals st) ≤ length (Panel.signals (Panel.run st messages)))%nat.
Proof.
  assert (Panel.ids (Panel.signals st) `prefix_of`
            Panel.ids (Panel.signals (Panel.run st messages))) as H.
  { induction messages as [|m ms IH] using rev_ind; [done|].
    rewrite run_snoc. etrans; [exact IH|].
    destruct m as [d|d|d]; simpl; [apply ids_upsert_prefix|done..]. }
  split; [done|]. apply prefix_length in H. unfold Panel.ids in H.
  by rewrite !length_fmap in H.
Qed.

(** X3.  If the ids of the list are distinct, they are distinct after any
    messages of any kind: the list never holds two entries for one id (the
    ids serve as keys of the rendered cards). *)
Theorem ids_stay_distinct (st : Panel.State) (messages : list WebSocketMessage) :
  NoDup (Panel.ids (Panel.signals st)) →
  NoDup (Panel.ids (Panel.signals (Panel.run st messages))).
Proof.
  intros Hnd. induction messages as [|m ms IH] using rev_ind; [done|].
  rewrite run_snoc. destruct m as [d|d|d]; simpl; [|done..].
  by apply NoDup_ids_upsert.
Qed.

(** X4.  The two parts of the state do not interfere.  After any messages,
    the signal list is what the [signal_update] messages alone make of it,
    and the metrics are the payload of the last [metrics_update] message,
    or what they were if there was none. *)
Theorem signals_and_metrics_are_independent
    (st : Panel.State) (messages : list WebSocketMessage) :
  Panel.signals (Panel.run st messages) =
    Panel.signals (Panel.run st (signal_update <$> omap Messages.signal_payload messages)) ∧
  Panel.metrics (Panel.run st messages) =
    match last (omap Messages.metrics_payload messages) with
    | Some metricsData => Some metricsData
    | None => Panel.metrics st
    end.
Proof.
  induction messages as [|m ms [IH1 IH2]] using rev_ind; [done|].
  rewrite run_snoc, !omap_app. destruct m as [d|d|d].
  - change (omap Messages.signal_payload [signal_update d]) with [d].
    change (omap Messages.metrics_payload [signal_update d])
      with (@nil SystemMetrics).
    rewrite app_nil_r, fmap_app.
    change (signal_update <$> [d]) with [signal_update d].
    rewrite run_snoc. simpl. by rewrite IH1, IH2.
  - change (omap Messages.signal_payload [metrics_update d])
      with (@nil TradingSignal).
    change (omap Messages.metrics_payload [metrics_update d]) with [d].
    rewrite app_nil_r, last_snoc. by split.
  - change (omap Messages.signal_payload [market_data d])
      with (@nil TradingSignal).
    change (omap Messages.metrics_payload [market_data d])
      with (@nil SystemMetrics).
    by rewrite !app_nil_r.
Qed.

(** * Further facts about the socket service *)

Section ServiceExtras.

Import Lifecycle.
Context (host : Host).

#[local] Existing Instance registry_kept_preorder.
#[local] Existing Instance budget_kept_preorder.
#[local] Existing Instance sockets_kept_preorder.
#[local] Existing Instance wired_kept_preorder.

#[local] Instance url_kept_preorder : PreOrder url_kept.
Proof.
  split.
  - by intros w.
  - intros w1 w2 w3. unfold url_kept. congruence.
Qed.

Lemma handleReconnect_url w : url (handleReconnect w).1 = url w.
Proof. rewrite handleReconnect_eq. by destruct (_ <? _). Qed.

Lemma call_url_kept c w : url_kept w (call host c w).1.
Proof.
  unfold url_kept. destruct c as [| |h|h]; simpl.
  - rewrite connect_eq. destruct (WebSocket_accepts _ _); [done|].
    by rewrite handleReconnect_url.
  - rewrite disconnect_eq. destruct (ws w) as [s|]; [|done]. simpl.
    destruct (sockets w !! s) as [sk|]; [|done]. by destruct (is_live sk).
  - unfold addMessageHandler, modify. simpl.
    by destruct (arrays w !! messageHandlers w).
  - unfold removeMessageHandler, modify. simpl.
    by destruct (arrays w !! messageHandlers w).
Qed.

Lemma step_url_kept e w x : step host e w = Some x → url_kept w x.1.
Proof.
  apply (step_effect host url_kept); try done.
  - apply call_url_kept.
  - intros s r w0. unfold url_kept, set_readyState, modify. simpl.
    by destruct (sockets w0 !! s).
  - intros w0. apply handleReconnect_url.
Qed.

Lemma exec_url_kept es w w' : exec host es w = Some w' → url w' = url w.
Proof.
  revert w. induction es as [|e es IH]; intros w; simpl.
  - by intros [= <-].
  - destruct (step host e w) as [[w1 r]|] eqn:Hstep; [|done]. intros Hex.
    rewrite (IH w1 Hex). apply (step_url_kept e w (w1, r) Hstep).
Qed.

(** X5.  Whatever happens to a service after its construction (calls of
    its operations from outside or from handlers, socket events, timers),
    its retry counter stays between 0 and 5, its registry stays an array,
    every socket it created carries the four callbacks, and its URL is the
    one it was constructed with. *)
Theorem service_invariants (u : string) (es : list Event) (w : World) :
  exec host es (create u) = Some w →
  well_formed w ∧ url w = u.
Proof.
  intros Hex. split; [by eapply reachable_well_formed|].
  by rewrite (exec_url_kept es (create u) w Hex).
Qed.

Lemma step_invoked e w x :
  (∀ s data, e ≠ Message s data) → step host e w = Some x →
  invoked x.1 = invoked w.
Proof.
  intros He. destruct e as [c|s|s data|s|s|k]; simpl.
  - intros [= <-]. apply call_invoked.
  - destruct (sockets w !! s) as [sk|] eqn:Hs; [simpl|done].
    destruct (readyState sk); [|done..]. intros [= <-].
    unfold set_readyState, when_wired, onopen, console_log, emit, modify,
      mbind, M_bind. rewrite Hs. destruct (wired sk); [|done]. simpl.
    unfold invoked. simpl. rewrite omap_app. simpl. by rewrite app_nil_r.
  - by destruct (He s data).
  - destruct (sockets w !! s) as [sk|] eqn:Hs; [simpl|done].
    unfold when_wired, onerror, console_error, emit, modify.
    destruct (readyState sk); [| | |done]; intros [= <-];
      (destruct (wired sk); [|done]); simpl;
      by rewrite invoked_snoc, app_nil_r.
  - destruct (sockets w !! s) as [sk|] eqn:Hs; [simpl|done].
    unfold set_readyState, when_wired, onclose, console_log, emit, modify,
      mbind, M_bind. rewrite Hs.
    destruct (readyState sk); [| | |done]; intros [= <-];
      (destruct (wired sk); [|done]); simpl;
      rewrite handleReconnect_invoked; unfold invoked; simpl;
      rewrite omap_app; simpl; by rewrite app_nil_r.
  - destruct (timers w !! k) as [d|]; [simpl|done]. intros [= <-].
    unfold modify, mbind, M_bind.
    apply (call_invoked host connect_call (set_timers (delete k (timers w)) w)).
Qed.

(** X6.  Handlers are called by the delivery of a frame and by nothing
    else: no public operation, and no open, error, close or timer event,
    calls a handler. *)
Theorem only_frames_reach_handlers (e : Event) (w : World) (x : World * Res unit) :
  (∀ s data, e ≠ Message s data) →
  step host e w = Some x →
  invoked x.1 = invoked w.
Proof. apply step_invoked. Qed.

(** ** The registry *)

Lemma registry_addMessageHandler w hs h :
  registry w = Some hs → registry (addMessageHandler h w).1 = Some (hs ++ [h]).
Proof.
  intros Hreg. unfold addMessageHandler, modify, registry in *. simpl.
  rewrite Hreg. simpl. apply list_lookup_insert_eq. by eapply lookup_lt_Some.
Qed.

Lemma registry_removeMessageHandler w hs h :
  registry w = Some hs →
  registry (removeMessageHandler h w).1 = Some (filter (λ h', h' ≠ h) hs).
Proof.
  intros Hreg. unfold removeMessageHandler, modify, registry in *. simpl.
  rewrite Hreg. simpl. by rewrite lookup_app_r, Nat.sub_diag.
Qed.

Lemma filter_out_absent (h : handler) (hs : list handler) :
  h ∉ hs → filter (λ h', h' ≠ h) hs = hs.
Proof.
  induction hs as [|a hs IH]; [done|].
  intros [Ha Hhs]%not_elem_of_cons.
  rewrite filter_cons_True by done. f_equal. by apply IH.
Qed.

(** X7.  Registering a callback and removing it again leaves the registry
    with the callbacks it had, in their order, less any earlier
    registration of the same callback (so: unchanged, if it was not
    registered before).  [removeMessageHandler] takes out every
    registration of the callback, and removing twice is removing once. *)
Theorem registry_add_then_remove (w : World) (hs : list handler) (h : handler) :
  registry w = Some hs →
  registry (removeMessageHandler h (addMessageHandler h w).1).1
    = Some (filter (λ h', h' ≠ h) hs) ∧
  (h ∉ hs →
   registry (removeMessageHandler h (addMessageHandler h w).1).1 = Some hs) ∧
  (∀ hs', registry (removeMessageHandler h w).1 = Some hs' → h ∉ hs') ∧
  registry (removeMessageHandler h (removeMessageHandler h w).1).1
    = registry (removeMessageHandler h w).1.
Proof.
  intros Hreg.
  assert (registry (removeMessageHandler h (addMessageHandler h w).1).1
          = Some (filter (λ h', h' ≠ h) hs)) as Hround.
  { rewrite (registry_removeMessageHandler _ (hs ++ [h]))
      by by apply registry_addMessageHandler.
    rewrite filter_app, filter_cons_False, filter_nil, app_nil_r by tauto.
    done. }
  split; [done|]. split; [|split].
  - intros Hh. by rewrite Hround, filter_out_absent.
  - intros hs'. rewrite (registry_removeMessageHandler w hs) by done.
    intros [= <-]. intros [? _]%list_elem_of_filter. done.
  - rewrite (registry_removeMessageHandler _ (filter (λ h', h' ≠ h) hs))
      by by apply registry_removeMessageHandler.
    rewrite (registry_removeMessageHandler w hs) by done.
    f_equal. rewrite list_filter_filter. apply list_filter_iff. tauto.
Qed.

(** ** [disconnect] *)

Lemma disconnect_releases_nothing_else w :
  registry (disconnect w).1 = registry w ∧
  invoked (disconnect w).1 = invoked w.
Proof.
  rewrite disconnect_eq. destruct (ws w) as [s|]; [|done]. simpl.
  destruct (sockets w !! s) as [sk|]; [|done]. by destruct (is_live sk).
Qed.

(** X8.  After [disconnect()] the service holds no socket and the socket it
    held is no longer connecting or connected; the handlers stay
    registered and the retry counter is not touched.  A second
    [disconnect()], or a [disconnect()] of a service that holds no socket,
    changes nothing. *)
Theorem disconnect_releases_the_socket (w : World) :
  ws (disconnect w).1 = None ∧
  connection_active (disconnect w).1 = false ∧
  (∀ s sk, ws w = Some s → sockets (disconnect w).1 !! s = Some sk →
           is_live sk = false) ∧
  registry (disconnect w).1 = registry w ∧
  reconnectAttempts (disconnect w).1 = reconnectAttempts w ∧
  disconnect (disconnect w).1 = ((disconnect w).1, Ret tt) ∧
  (ws w = None → disconnect w = (w, Ret tt)).
Proof.
  assert (ws (disconnect w).1 = None) as Hws.
  { rewrite disconnect_eq. destruct (ws w) as [s|] eqn:E; [done|]. done. }
  split; [done|]. split; [|split; [|split; [|split; [|split]]]].
  - unfold connection_active. by rewrite Hws.
  - intros s sk Hs. rewrite disconnect_eq, Hs. simpl.
    destruct (sockets w !! s) as [sk0|] eqn:Hs0; [|by rewrite Hs0].
    destruct (is_live sk0) eqn:Hl; simpl.
    + rewrite list_lookup_insert_eq by (by eapply lookup_lt_Some).
      by intros [= <-].
    + rewrite Hs0. by intros [= <-].
  - rewrite disconnect_eq. destruct (ws w) as [s|]; [|done]. simpl.
    destruct (sockets w !! s) as [sk|]; [|done]. by destruct (is_live sk).
  - rewrite disconnect_eq. destruct (ws w) as [s|]; [|done]. simpl.
    destruct (sockets w !! s) as [sk|]; [|done]. by destruct (is_live sk).
  - rewrite (disconnect_eq (disconnect w).1), Hws. done.
  - intros E. by rewrite disconnect_eq, E.
Qed.

(** ** A URL the host rejects *)

Lemma handleReconnect_ws w : ws (handleReconnect w).1 = ws w.
Proof. rewrite handleReconnect_eq. by destruct (_ <? _). Qed.

(** With no socket and a URL the host rejects, an event leaves the
    service without a socket. *)
Lemma step_without_socket e w x :
  WebSocket_accepts host (url w) = false → sockets w = [] → ws w = None →
  step host e w = Some x →
  sockets x.1 = [] ∧ ws x.1 = None ∧ invoked x.1 = invoked w ∧
  budget_kept w x.1.
Proof.
  intros Hrej Hso Hws Hstep.
  assert (∀ w0, url w0 = url w → sockets w0 = [] → ws w0 = None →
            sockets (connect host w0).1 = [] ∧ ws (connect host w0).1 = None)
    as Hconnect.
  { intros w0 Hu H1 H2. rewrite connect_eq, Hu, Hrej.
    by rewrite handleReconnect_sockets, handleReconnect_ws. }
  assert (∀ s, sockets w !! s = None) as Hnone by (intros s; by rewrite Hso).
  destruct e as [c|s|s data|s|s|k];
    try (simpl in Hstep; by rewrite Hnone in Hstep).
  - split; [|split; [|split]].
    + simpl in Hstep. injection Hstep as <-.
      destruct c as [| |h|h]; simpl.
      * by apply Hconnect.
      * by rewrite disconnect_eq, Hws.
      * unfold addMessageHandler, modify. simpl.
        by destruct (arrays w !! messageHandlers w).
      * unfold removeMessageHandler, modify. simpl.
        by destruct (arrays w !! messageHandlers w).
    + simpl in Hstep. injection Hstep as <-.
      destruct c as [| |h|h]; simpl.
      * by apply Hconnect.
      * by rewrite disconnect_eq, Hws.
      * unfold addMessageHandler, modify. simpl.
        by destruct (arrays w !! messageHandlers w).
      * unfold removeMessageHandler, modify. simpl.
        by destruct (arrays w !! messageHandlers w).
    + by apply (step_invoked (Api c)).
    + by apply (step_budget_kept host (Api c)).
  - split; [|split; [|split]].
    + simpl in Hstep. destruct (timers w !! k); [simpl in Hstep|done].
      injection Hstep as <-. unfold modify, mbind, M_bind.
      by apply Hconnect.
    + simpl in Hstep. destruct (timers w !! k); [simpl in Hstep|done].
      injection Hstep as <-. unfold modify, mbind, M_bind.
      by apply Hconnect.
    + by apply (step_invoked (Timer k)).
    + by apply (step_budget_kept host (Timer k)).
Qed.

Lemma exec_without_socket es w0 w :
  WebSocket_accepts host (url w0) = false → sockets w0 = [] → ws w0 = None →
  exec host es w0 = Some w →
  sockets w = [] ∧ ws w = None ∧ invoked w = invoked w0 ∧ budget_kept w0 w.
Proof.
  revert w0. induction es as [|e es IH]; intros w0 Hrej Hso Hws Hex; simpl in Hex.
  - injection Hex as <-. repeat split; try done; reflexivity.
  - destruct (step host e w0) as [[w1 r]|] eqn:Hstep; [|done].
    destruct (step_without_socket e w0 (w1, r)) as (S1 & S2 & S3 & S4);
      try done. simpl in *.
    destruct (IH w1) as (I1 & I2 & I3 & I4); try done.
    { pose proof (step_url_kept e w0 (w1, r) Hstep) as Hu.
      unfold url_kept in Hu. simpl in Hu. by rewrite Hu. }
    split; [done|]. split; [done|]. split; [congruence|by etrans].
Qed.

(** X9.  A service constructed with a URL that the host's [WebSocket]
    constructor rejects never gets a socket, whatever is called and
    whatever timers fire: each [connect()] ends in the [catch] branch.  It
    schedules at most 5 retries over its whole life and never calls a
    handler. *)
Theorem rejected_url_never_connects (u : string) (es : list Event) (w : World) :
  WebSocket_accepts host u = false →
  exec host es (create u) = Some w →
  sockets w = [] ∧ ws w = None ∧ invoked w = [] ∧ (scheduled w ≤ 5)%nat.
Proof.
  intros Hrej Hex.
  destruct (exec_without_socket es (create u) w) as (H1 & H2 & H3 & H4 & H5 & H6);
    try done.
  split; [done|]. split; [done|]. split; [done|].
  unfold create, scheduled, maxReconnectAttempts in *. simpl in *. lia.
Qed.

(** ** After the panel has gone *)

Lemma handleReconnect_registry w : registry (handleReconnect w).1 = registry w.
Proof. rewrite handleReconnect_eq. by destruct (_ <? _). Qed.

Lemma connect_registry w : registry (connect host w).1 = registry w.
Proof.
  rewrite connect_eq. destruct (WebSocket_accepts _ _); [done|].
  by rewrite handleReconnect_registry.
Qed.

Lemma connect_invoked w : invoked (connect host w).1 = invoked w.
Proof. apply (call_invoked host connect_call). Qed.

Lemma onmessage_empty_registry data w :
  registry w = Some [] →
  registry (onmessage host data w).1 = Some [] ∧
  invoked (onmessage host data w).1 = invoked w.
Proof.
  intros Hreg. destruct (JSON_parse host data) as [m|] eqn:Hp.
  - by rewrite (onmessage_parsed host data m w [] Hp Hreg).
  - rewrite onmessage_unparsed by done. simpl. split; [done|].
    by rewrite invoked_snoc, app_nil_r.
Qed.

(** With an empty registry, an event of the host leaves the registry empty
    and calls no handler. *)
Lemma step_empty_registry e w x :
  (∀ c, e ≠ Api c) → registry w = Some [] → step host e w = Some x →
  registry x.1 = Some [] ∧ invoked x.1 = invoked w.
Proof.
  intros He Hreg.
  destruct e as [c|s|s data|s|s|k]; simpl.
  - by destruct (He c).
  - destruct (sockets w !! s) as [sk|] eqn:Hs; [simpl|done].
    destruct (readyState sk); [|done..]. intros [= <-].
    unfold set_readyState, when_wired, onopen, console_log, emit, modify,
      mbind, M_bind. rewrite Hs. destruct (wired sk); [|done]. simpl.
    split; [done|]. unfold invoked. simpl. rewrite omap_app. simpl.
    by rewrite app_nil_r.
  - destruct (sockets w !! s) as [sk|] eqn:Hs; [simpl|done].
    destruct (readyState sk); [done| |done..]. intros [= <-].
    unfold when_wired. destruct (wired sk); [|done].
    by apply onmessage_empty_registry.
  - destruct (sockets w !! s) as [sk|] eqn:Hs; [simpl|done].
    unfold when_wired, onerror, console_error, emit, modify.
    destruct (readyState sk); [| | |done]; intros [= <-];
      (destruct (wired sk); [|done]); simpl;
      (split; [done|]); by rewrite invoked_snoc, app_nil_r.
  - destruct (sockets w !! s) as [sk|] eqn:Hs; [simpl|done].
    unfold set_readyState, when_wired, onclose, console_log, emit, modify,
      mbind, M_bind. rewrite Hs.
    destruct (readyState sk); [| | |done]; intros [= <-];
      (destruct (wired sk); [|done]); simpl;
      rewrite handleReconnect_registry, handleReconnect_invoked;
      (split; [done|]); unfold invoked; simpl;
      rewrite omap_app; simpl; by rewrite app_nil_r.
  - destruct (timers w !! k) as [d|]; [simpl|done]. intros [= <-].
    unfold modify, mbind, M_bind.
    by rewrite connect_registry, connect_invoked.
Qed.

Lemma exec_empty_registry es w w' :
  (∀ c, Api c ∉ es) → registry w = Some [] → exec host es w = Some w' →
  registry w' = Some [] ∧ invoked w' = invoked w.
Proof.
  revert w. induction es as [|e es IH]; intros w Hes Hreg; simpl.
  - by intros [= <-].
  - destruct (step host e w) as [[w1 r]|] eqn:Hstep; [|done]. intros Hex.
    destruct (step_empty_registry e w (w1, r)) as [H1 H2]; try done.
    { intros c ->. apply (Hes c), list_elem_of_here. }
    destruct (IH w1) as [I1 I2]; try done.
    { intros c Hc. apply (Hes c). by apply list_elem_of_further. }
    simpl in *. split; [done|congruence].
Qed.

Lemma cleanup_world h w :
  (cleanup h w).1 =
  (disconnect
     (removeMessageHandler h
        (set_trace (trace w ++ [ConsoleLog "Cleaning up WebSocket connection..."]) w)).1).1.
Proof.
  unfold cleanup, mbind, M_bind, console_log, emit, modify, removeMessageHandler.
  simpl. by destruct (disconnect _).
Qed.

(** X10.  The panel's effect clean-up takes the panel's handler out of the
    registry before it disconnects.  If the registry held nothing but that
    handler (the panel has its service to itself), then after the clean-up
    the registry is empty and stays so, and no event of the host (frames,
    closes, timers, whatever reconnection goes on) calls a handler again. *)
Theorem no_delivery_after_cleanup (w : World) (h : handler) (hs : list handler)
    (es : list Event) (w' : World) :
  registry w = Some hs → (∀ h', h' ∈ hs → h' = h) →
  (∀ c, Api c ∉ es) →
  exec host es (cleanup h w).1 = Some w' →
  registry (cleanup h w).1 = Some [] ∧
  registry w' = Some [] ∧
  invoked w' = invoked w.
Proof.
  intros Hreg Hall Hes Hex.
  assert (registry (cleanup h w).1 = Some []) as Hempty.
  { rewrite cleanup_world.
    destruct (disconnect_releases_nothing_else
                (removeMessageHandler h
                   (set_trace (trace w ++ [ConsoleLog "Cleaning up WebSocket connection..."]) w)).1)
      as [-> _].
    rewrite (registry_removeMessageHandler _ hs) by done. f_equal.
    clear Hreg. induction hs as [|a hs IH]; [done|].
    rewrite filter_cons_False.
    - apply IH. intros h' Hh'. apply Hall. by apply list_elem_of_further.
    - intros Hne. apply Hne, Hall, list_elem_of_here. }
  assert (invoked (cleanup h w).1 = invoked w) as Hinv.
  { rewrite cleanup_world.
    destruct (disconnect_releases_nothing_else
                (removeMessageHandler h
                   (set_trace (trace w ++ [ConsoleLog "Cleaning up WebSocket connection..."]) w)).1)
      as [_ ->].
    unfold removeMessageHandler, modify. simpl.
    destruct (arrays w !! messageHandlers w); simpl;
      unfold invoked; simpl; rewrite omap_app; simpl; by rewrite app_nil_r. }
  destruct (exec_empty_registry es _ w' Hes Hempty Hex) as [H1 H2].
  split; [done|]. split; [done|congruence].
Qed.

(** ** Frames in, handler calls out *)

Lemma set_trace_same w : set_trace (trace w) w = w.
Proof. by destruct w. Qed.

Lemma set_trace_set_trace t t' w : set_trace t' (set_trace t w) = set_trace t' w.
Proof. done. Qed.

Lemma invoke_passive m h w :
  passive host h →
  invoke host m h w = (set_trace (trace w ++ [Invoked h m]) w, Ret tt).
Proof.
  intros Hp. rewrite invoke_eq. unfold throws. by rewrite (Hp m).
Qed.

Lemma forEach_from_passive m a hs :
  Forall (passive host) hs →
  ∀ n k w, arrays w !! a = Some hs → (k + n = length hs)%nat →
    forEach_from a (invoke host m) k n w =
    (set_trace (trace w ++ ((λ h, Invoked h m) <$> drop k hs)) w, Ret tt).
Proof.
  intros Hpass n. induction n as [|n IH]; intros k w Ha Hk.
  - rewrite drop_ge by lia. simpl. by rewrite app_nil_r, set_trace_same.
  - destruct (lookup_lt_is_Some_2 hs k) as [h Hh]; [lia|].
    rewrite (forEach_from_S a _ k n w hs h Ha Hh).
    rewrite invoke_passive
      by (eapply Forall_forall; [exact Hpass|by eapply list_elem_of_lookup_2]).
    rewrite IH by (done || lia).
    rewrite (drop_S _ _ _ Hh). simpl. by rewrite <- app_assoc.
Qed.

Lemma onmessage_passive data w hs :
  registry w = Some hs → Forall (passive host) hs →
  onmessage host data w =
  (set_trace (trace w ++ delivery_trace host hs data) w, Ret tt).
Proof.
  intros Hreg Hpass. unfold delivery_trace.
  destruct (JSON_parse host data) as [m|] eqn:Hp.
  - rewrite (onmessage_parsed host data m w hs Hp Hreg).
    rewrite (forEach_from_passive m _ hs Hpass) by done.
    by rewrite drop_0.
  - by rewrite onmessage_unparsed.
Qed.

Lemma invocations_of_delivery hs frames :
  omap invocation (frames ≫= delivery_trace host hs) = fan_out host hs frames.
Proof.
  unfold fan_out. induction frames as [|d frames IH]; [done|].
  rewrite bind_cons, omap_app, IH. unfold delivery_trace at 1.
  assert (omap (JSON_parse host) (d :: frames) =
          option_list (JSON_parse host d) ++ omap (JSON_parse host) frames) as ->.
  { simpl. by destruct (JSON_parse host d). }
  destruct (JSON_parse host d) as [m|]; [|done].
  rewrite bind_app. f_equal. simpl. rewrite app_nil_r. clear.
  induction hs as [|h hs IHhs]; [done|]. simpl. f_equal. exact IHhs.
Qed.

Lemma exec_frames_passive s sk hs frames w :
  sockets w !! s = Some sk → readyState sk = OPEN → wired sk = true →
  registry w = Some hs → Forall (passive host) hs →
  exec host (Message s <$> frames) w =
  Some (set_trace (trace w ++ (frames ≫= delivery_trace host hs)) w).
Proof.
  intros Hs Hr Hw Hreg Hpass. revert w Hs Hreg.
  induction frames as [|d frames IH]; intros w Hs Hreg.
  - simpl. by rewrite app_nil_r, set_trace_same.
  - rewrite fmap_cons. cbn [exec].
    rewrite (step_Message host s sk d w Hs Hr Hw), (onmessage_passive d w hs) by done.
    rewrite IH by done. rewrite bind_cons, app_assoc. reflexivity.
Qed.

(** X11.  Frames that arrive on an open socket reach the handlers in the
    order of arrival, one frame after the other: when the registered
    handlers neither call the service nor throw, a run of frames writes,
    frame by frame, the calls of all handlers in registry order with the
    decoded message (a console error for a frame that does not decode),
    and changes nothing else in the service. *)
Theorem frames_are_delivered_in_order (w : World) (s : socket) (sk : WebSocket)
    (hs : list handler) (frames : list string) :
  sockets w !! s = Some sk → readyState sk = OPEN → wired sk = true →
  registry w = Some hs → Forall (passive host) hs →
  exec host (Message s <$> frames) w =
    Some (set_trace (trace w ++ (frames ≫= delivery_trace host hs)) w) ∧
  ∀ w', exec host (Message s <$> frames) w = Some w' →
        invoked w' = invoked w ++ fan_out host hs frames.
Proof.
  intros Hs Hr Hw Hreg Hpass.
  rewrite (exec_frames_passive s sk hs frames w) by done.
  split; [done|]. intros w' [= <-].
  unfold invoked. simpl. by rewrite omap_app, invocations_of_delivery.
Qed.



(** X13.  A socket that a later [connect()] has replaced is not detached:
    a frame arriving on it is still delivered to every registered handler,
    so a message sent on both connections is handled twice. *)
Theorem replaced_socket_still_delivers (w : World) (s : socket) (sk : WebSocket)
    (data : string) (m : WebSocketMessage) (hs : list handler) :
  WebSocket_accepts host (url w) = true →
  sockets w !! s = Some sk → readyState sk = OPEN → wired sk = true →
  JSON_parse host data = Some m → registry w = Some hs →
  any_throws host m hs = false →
  ws (connect host w).1 ≠ Some s ∧
  ∃ w', step host (Message s data) (connect host w).1 = Some (w', Ret tt) ∧
        invoked w' = invoked (connect host w).1 ++ ((λ h, (h, m)) <$> hs).
Proof.
  intros Hacc Hs Hr Hw Hp Hreg Hno. rewrite connect_eq, Hacc. cbn [fst]. split.
  - simpl. intros [= E]. apply lookup_lt_Some in Hs. lia.
  - apply (deliver_to_all host _ s sk); try done.
    simpl. by apply lookup_app_l_Some.
Qed.

(** ** The cap is per outage *)

Lemma exec_app es1 es2 w :
  exec host (es1 ++ es2) w =
  match exec host es1 w with
  | Some w1 => exec host es2 w1
  | None => None
  end.
Proof.
  revert w. induction es1 as [|e es1 IH]; intros w; [done|].
  simpl. destruct (step host e w) as [[w1 r]|]; [apply IH|done].
Qed.

Lemma close_schedules_first_retry k sk w :
  sockets w !! k = Some sk → readyState sk ≠ CLOSED → wired sk = true →
  reconnectAttempts w = 0 →
  ∃ w1, step host (Close k) w = Some (w1, Ret tt) ∧
        url w1 = url w ∧ timers w1 = timers w ++ [2000] ∧
        length (sockets w1) = length (sockets w) ∧
        delays w1 = delays w ++ [2000].
Proof.
  intros Hk Hc Hw Hatt. rewrite (step_Close host k sk w Hk Hc), Hw.
  rewrite handleReconnect_eq.
  change (reconnectAttempts (set_trace _ _)) with (reconnectAttempts w).
  rewrite Hatt. change (0 <? maxReconnectAttempts) with true. cbn iota.
  eexists. split; [reflexivity|]. cbn [url timers sockets set_timers set_trace
    set_reconnectAttempts set_sockets].
  split; [done|]. split; [done|]. split; [apply length_insert|].
  unfold delays. cbn [trace set_timers set_trace]. rewrite !omap_app.
  simpl. by rewrite app_nil_r.
Qed.

Lemma timer_opens_socket d w :
  WebSocket_accepts host (url w) = true → timers w = [d] →
  ∃ w2, step host (Timer 0) w = Some (w2, Ret tt) ∧
        url w2 = url w ∧ timers w2 = [] ∧
        sockets w2 = sockets w ++ [{| readyState := CONNECTING; wired := true |}] ∧
        delays w2 = delays w.
Proof.
  intros Hacc Ht. unfold step. rewrite Ht. cbn [lookup list_lookup mbind option_bind].
  unfold mbind at 1, M_bind at 1, modify at 1. cbn iota.
  rewrite connect_eq. cbn [url set_timers]. rewrite Hacc.
  eexists. split; [reflexivity|]. cbn [url timers sockets set_sockets set_ws set_timers].
  rewrite Ht. done.
Qed.

Lemma open_resets_counter s w :
  sockets w !! s = Some {| readyState := CONNECTING; wired := true |} →
  ∃ w3, step host (Open s) w = Some (w3, Ret tt) ∧
        url w3 = url w ∧ timers w3 = timers w ∧
        sockets w3 = <[s := {| readyState := OPEN; wired := true |}]> (sockets w) ∧
        reconnectAttempts w3 = 0 ∧
        delays w3 = delays w.
Proof.
  intros Hs. rewrite (step_Open host s _ w Hs) by done.
  eexists. split; [reflexivity|]. repeat (split; [done|]).
  unfold delays. simpl. rewrite omap_app. simpl. by rewrite app_nil_r.
Qed.

Lemma outage_reconnects k w :
  connected_at host k w →
  ∃ w', exec host (outage k) w = Some w' ∧ connected_at host (S k) w' ∧
        delays w' = delays w ++ [2000].
Proof.
  intros (Hacc & Hlen & Hk & Htim & Hatt).
  destruct (close_schedules_first_retry k _ w Hk) as (w1 & S1 & U1 & T1 & L1 & D1);
    [done..|].
  rewrite Htim in T1.
  destruct (timer_opens_socket 2000 w1) as (w2 & S2 & U2 & T2 & K2 & D2);
    [by rewrite U1|done|].
  destruct (open_resets_counter (S k) w2) as (w3 & S3 & U3 & T3 & K3 & A3 & D3).
  { rewrite K2, lookup_app_r by lia. by rewrite L1, Hlen, Nat.sub_diag. }
  exists w3. unfold outage. cbn [exec]. rewrite S1, S2, S3. split; [done|].
  split; [|congruence].
  split; [congruence|]. split; [|split; [|split; [congruence|done]]].
  - rewrite K3, length_insert, K2, length_app, L1, Hlen. simpl. lia.
  - rewrite K3. apply list_lookup_insert_eq.
    rewrite K2, length_app, L1, Hlen. simpl. lia.
Qed.

(** X14.  The cap of five bounds the retries of one outage, not those of
    the service: each successful opening puts the counter back to zero,
    so a connection that is lost and regained [n] times has [n]
    reconnections scheduled, each one at the first delay of 2000 ms, for
    every [n]. *)
Theorem retries_are_capped_per_outage (k n : nat) (w : World) :
  connected_at host k w →
  ∃ w', exec host (outages k n) w = Some w' ∧
        connected_at host (k + n) w' ∧
        delays w' = delays w ++ replicate n 2000.
Proof.
  revert k w. induction n as [|n IH]; intros k w Hc.
  - exists w. simpl. rewrite Nat.add_0_r, app_nil_r. done.
  - destruct (outage_reconnects k w Hc) as (w1 & Hex1 & Hc1 & Hd1).
    destruct (IH (S k) w1 Hc1) as (w' & Hex & Hc' & Hd').
    exists w'. cbn [outages]. rewrite exec_app, Hex1. split; [done|].
    split; [by replace (k + S n)%nat with (S k + n)%nat by lia|].
    rewrite Hd', Hd1, <- app_assoc. done.
Qed.

End ServiceExtras.

(** * Facts about the reconnecting hook *)

Section HookFacts.

Import Hook.
Context (accepts : string → bool).

Lemma trace_cleanup captured w : trace (cleanup captured w) = trace w.
Proof.
  unfold cleanup, clear_reconnectTimeout, clearTimeout, WebSocket_close,
    set_readyState.
  destruct captured as [s|]; [destruct (sockets w !! s) as [[[] ?]|]|];
    simpl; by destruct (reconnectTimeout w).
Qed.

Lemma trace_run_effect u w : trace (run_effect accepts u w).1 = trace w.
Proof. unfold run_effect, connect. by destruct (accepts u). Qed.

(** A close event sets one timer, 5000 ms ahead; no other event sets one. *)
Lemma step_delays e w x :
  step accepts e w = Some x →
  delays x.1 = delays w ++ (if is_Close e then [5000] else []).
Proof.
  unfold delays. destruct e as [u|u| |s|s|s|id]; simpl.
  - destruct (effect w); [done|]. intros [= <-].
    by rewrite trace_run_effect, app_nil_r.
  - destruct (effect w) as [[u0 captured]|]; [|done].
    destruct (decide (u = u0)); intros [= <-]; simpl.
    + by rewrite app_nil_r.
    + by rewrite trace_run_effect, trace_cleanup, app_nil_r.
  - destruct (effect w) as [[u0 captured]|]; [|done]. intros [= <-]. simpl.
    by rewrite trace_cleanup, app_nil_r.
  - destruct (sockets w !! s) as [sk|] eqn:Hs; [simpl|done].
    destruct (readyState sk); [|done..]. intros [= <-].
    unfold onopen, clear_reconnectTimeout, clearTimeout, set_readyState.
    rewrite Hs. simpl. destruct (reconnectTimeout w); simpl;
      rewrite omap_app; simpl; by rewrite app_nil_r.
  - destruct (sockets w !! s) as [sk|] eqn:Hs; [simpl|done].
    unfold onclose, set_readyState. rewrite Hs.
    destruct (readyState sk); [| | |done]; intros [= <-]; simpl;
      rewrite <- app_assoc, omap_app; simpl; done.
  - destruct (sockets w !! s) as [sk|] eqn:Hs; [simpl|done].
    destruct (readyState sk); [| | |done]; intros [= <-]; simpl;
      rewrite omap_app; simpl; by rewrite app_nil_r.
  - destruct (list_find _ (timers w)) as [[i [id' u]]|]; [simpl|done].
    intros [= <-]. unfold connect, clearTimeout.
    destruct (accepts u); simpl; by rewrite app_nil_r.
Qed.

End HookFacts.

(** X15.  The hook retries without a cap and without backoff: in every run,
    each close event of a socket has set exactly one reconnection, 5000 ms
    ahead, however many came before; nothing else sets one. *)
Theorem hook_retries_have_no_cap (accepts : string → bool)
    (es : list Hook.Event) (w w' : Hook.World) :
  Hook.exec accepts es w = Some w' →
  Hook.delays w' = Hook.delays w ++ replicate (Hook.closes es) 5000.
Proof.
  revert w. induction es as [|e es IH]; intros w; simpl.
  - intros [= <-]. by rewrite app_nil_r.
  - destruct (Hook.step accepts e w) as [[w1 r]|] eqn:Hstep; [|done].
    intros Hex. rewrite (IH w1 Hex).
    pose proof (step_delays accepts e w (w1, r) Hstep) as Hd. simpl in Hd.
    rewrite Hd.
    unfold Hook.closes. rewrite filter_cons.
    destruct (Hook.is_Close e); simpl.
    + by rewrite <- app_assoc.
    + by rewrite app_nil_r.
Qed.

Section HookPhases.

Import Hook.
Context (accepts : string → bool).

(** With every socket before the last one closed, a socket that is not
    closed is the last one. *)
Lemma open_socket_is_last (pre : list Socket) (sk x : Socket) (s : nat) :
  Forall (λ y, readyState y = CLOSED) pre →
  (pre ++ [sk]) !! s = Some x → readyState x ≠ CLOSED →
  s = length pre ∧ x = sk.
Proof.
  intros Hpre Hs Hx. destruct (decide (s < length pre)%nat) as [Hlt|Hge].
  - rewrite lookup_app_l in Hs by done. exfalso. apply Hx.
    by apply (Forall_lookup_1 _ _ _ _ Hpre Hs).
  - rewrite lookup_app_r in Hs by lia.
    destruct (s - length pre)%nat as [|n] eqn:E; simpl in Hs; [|done].
    split; [lia|congruence].
Qed.

Lemma step_phase u e w p x :
  accepts u = true → in_phase u w p → host_event e = true →
  step accepts e w = Some x →
  x.2 = Ret tt ∧ in_phase u x.1 (after w p e).
Proof.
  intros Hacc (Heff & pre & sk & Hso & Hpre & Htar & Hp) He.
  destruct e as [u'|u'| |s|s|s|id]; try done; simpl.
  - (* open *)
    destruct (sockets w !! s) as [x0|] eqn:Hs; [simpl|done].
    destruct (readyState x0) eqn:Hr; [|done..]. intros [= <-].
    rewrite Hso in Hs.
    destruct (open_socket_is_last pre sk x0 s Hpre Hs) as [-> ->];
      [by rewrite Hr|].
    split; [done|]. destruct p as [| |id]; destruct Hp as (Hr' & Hp);
      try congruence. destruct Hp as [Htim Hws].
    assert (sockets (set_readyState (length pre) OPEN w)
            = pre ++ [{| readyState := OPEN; target := target sk |}]) as Hso'.
    { unfold set_readyState. rewrite Hso, Hs. simpl.
      replace (length pre) with (length pre + 0)%nat at 1 by lia.
      by rewrite insert_app_r. }
    split.
    { unfold onopen, clear_reconnectTimeout, clearTimeout, set_readyState.
      rewrite Hso, Hs. simpl. by destruct (reconnectTimeout w). }
    exists pre, {| readyState := OPEN; target := target sk |}.
    unfold onopen, clear_reconnectTimeout, clearTimeout.
    assert (timers (set_readyState (length pre) OPEN w) = []) as Htim'.
    { unfold set_readyState. rewrite Hso, Hs. done. }
    destruct (reconnectTimeout _) eqn:Href; simpl; rewrite ?Htim', Hso'; done.
  - (* close *)
    destruct (sockets w !! s) as [x0|] eqn:Hs; [simpl|done].
    rewrite Hso in Hs.
    assert (readyState x0 ≠ CLOSED →
            (onclose (target x0) (set_readyState s CLOSED w), Ret tt) = x →
            x.2 = Ret () ∧ in_phase u x.1 (Waiting (next_timer w))) as Hmain.
    { intros Hx <-.
      destruct (open_socket_is_last pre sk x0 s Hpre Hs Hx) as [-> ->].
      split; [done|].
      assert (set_readyState (length pre) CLOSED w
              = set_sockets (pre ++ [{| readyState := CLOSED; target := target sk |}]) w)
        as ->.
      { unfold set_readyState. rewrite Hso, Hs. f_equal.
        replace (length pre) with (length pre + 0)%nat at 1 by lia.
        by rewrite insert_app_r. }
      split; [done|].
      exists pre, {| readyState := CLOSED; target := target sk |}.
      split; [done|]. split; [done|]. split; [done|].
      assert (timers w = []) as Htim.
      { destruct p as [| |id]; destruct Hp as (Hr' & Hp); [tauto|tauto|].
        by rewrite Hr' in Hx. }
      simpl. rewrite Htim, Htar. done. }
    destruct (readyState x0) eqn:Hr; [| | |done]; intros [= E];
      apply Hmain; done.
  - (* error *)
    destruct (sockets w !! s) as [x0|] eqn:Hs; [simpl|done].
    assert ((onerror w, Ret tt) = x → x.2 = Ret () ∧ in_phase u x.1 p) as Hmain.
    { intros <-. split; [done|]. split; [done|]. exists pre, sk.
      by destruct p. }
    destruct (readyState x0); [| | |done]; intros [= E]; by apply Hmain.
  - (* timer *)
    destruct (list_find _ (timers w)) as [[i [id' u']]|] eqn:Hfind; [simpl|done].
    intros [= <-].
    destruct p as [| |id0]; destruct Hp as (Hr' & Hp).
    + destruct Hp as [Htim _]. by rewrite Htim in Hfind.
    + destruct Hp as [Htim _]. by rewrite Htim in Hfind.
    + destruct Hp as (Htim & Href & Hws). rewrite Htim in Hfind.
      apply list_find_Some in Hfind as (Hi & Hid & _). simpl in Hid.
      destruct i as [|i]; simpl in Hi; [|done]. injection Hi as <- <-. subst id0.
      unfold connect, clearTimeout. rewrite Hacc. split; [done|].
      split; [done|]. simpl.
      exists (pre ++ [sk]), {| readyState := CONNECTING; target := u |}.
      rewrite Htim, Hso. simpl.
      split; [done|]. split.
      { apply Forall_app. split; [done|]. by constructor. }
      split; [done|]. split; [done|]. split; [|done].
      rewrite filter_cons_False by (simpl; tauto). done.
Qed.

Lemma mount_phase u :
  accepts u = true →
  step accepts (Mount u) initial
    = Some ((run_effect accepts u initial).1, Ret tt) ∧
  in_phase u (run_effect accepts u initial).1 Connecting.
Proof.
  intros Hacc.
  assert (run_effect accepts u initial =
          (set_effect (Some (u, None))
             (set_sockets [{| readyState := CONNECTING; target := u |}] initial),
           Ret tt)) as E.
  { unfold run_effect, connect. by rewrite Hacc. }
  split.
  - simpl. by rewrite E.
  - rewrite E. split; [done|].
    exists [], {| readyState := CONNECTING; target := u |}. by repeat split.
Qed.

Lemma exec_phase u es w p w' :
  accepts u = true → in_phase u w p →
  Forall (λ e, host_event e = true) es →
  exec accepts es w = Some w' →
  ∃ p', in_phase u w' p'.
Proof.
  intros Hacc. revert w p. induction es as [|e es IH]; intros w p Hp Hes; simpl.
  - intros [= <-]. by exists p.
  - inversion_clear Hes as [|?? He Hes'].
    destruct (step accepts e w) as [[w1 r]|] eqn:Hstep; [|done].
    destruct (step_phase u e w p (w1, r) Hacc Hp He Hstep) as [_ Hp1].
    by apply (IH w1 _ Hp1).
Qed.

(** X16.  A hook mounted for a URL the host accepts, and not rendered with
    another URL since, is always in one of three phases: connecting,
    connected, or waiting for the one pending timer.  So every socket but
    the latest is closed, at most one timer is pending and then no socket
    is alive, and the [ws] the hook returns is the latest socket exactly
    when that socket is open, and [null] otherwise. *)
Theorem hook_is_a_three_phase_machine (u : string) (es : list Event) (w : World) :
  accepts u = true →
  Forall (λ e, host_event e = true) es →
  exec accepts (Mount u :: es) initial = Some w →
  (∃ p, in_phase u w p) ∧
  (∀ s, ws w = Some s →
        sockets w !! s = Some {| readyState := OPEN; target := u |} ∧
        S s = length (sockets w) ∧ timers w = []) ∧
  (length (timers w) ≤ 1)%nat.
Proof.
  intros Hacc Hes Hex. cbn [exec] in Hex.
  destruct (mount_phase u Hacc) as [Hm Hp0]. rewrite Hm in Hex.
  destruct (exec_phase u es _ Connecting w Hacc Hp0 Hes Hex) as [p Hp].
  split; [by exists p|].
  destruct Hp as (Heff & pre & sk & Hso & Hpre & Htar & Hp).
  destruct p as [| |id].
  - destruct Hp as (Hr & Htim & Hws). rewrite Hws, Htim. split; [done|]. simpl. lia.
  - destruct Hp as (Hr & Htim & Hws). rewrite Hws, Htim, Hso. split; [|simpl; lia].
    intros s [= <-]. rewrite lookup_app_r, Nat.sub_diag, length_app by done.
    simpl. split; [|split; [lia|done]]. destruct sk. simpl in *. by subst.
  - destruct Hp as (Hr & Htim & Href & Hws). rewrite Hws, Htim. split; [done|].
    simpl. lia.
Qed.

(** X17.  Unmounting a hook that was mounted once does not close its
    socket: the clean-up closes over the [ws] of the first render, which is
    [null].  It only clears the pending timer.  A hook unmounted while
    connected keeps its socket and its callbacks, and when that socket
    closes, the reconnection is set and made as before. *)
Theorem unmount_leaves_the_socket_open (u : string) (w : World) (p : Phase) :
  accepts u = true →
  in_phase u w p →
  (∃ w1, step accepts Unmount w = Some (w1, Ret tt) ∧
         sockets w1 = sockets w ∧ timers w1 = [] ∧ effect w1 = None ∧
         ws w1 = ws w) ∧
  (∀ s, p = Connected → ws w = Some s →
        ∃ w', exec accepts [Unmount; Close s; Timer (next_timer w)] w = Some w' ∧
              sockets w' =
                <[s := {| readyState := CLOSED; target := u |}]> (sockets w) ++
                [{| readyState := CONNECTING; target := u |}]).
Proof.
  intros Hacc (Heff & pre & sk & Hso & Hpre & Htar & Hp).
  assert (timers (cleanup None w) = []) as Htim.
  { unfold cleanup, clear_reconnectTimeout, clearTimeout.
    destruct p as [| |id].
    - destruct Hp as (_ & Ht & _).
      destruct (reconnectTimeout w); simpl; by rewrite Ht.
    - destruct Hp as (_ & Ht & _).
      destruct (reconnectTimeout w); simpl; by rewrite Ht.
    - destruct Hp as (_ & Ht & -> & _). simpl. rewrite Ht.
      rewrite filter_cons_False by (simpl; tauto). done. }
  assert (sockets (cleanup None w) = sockets w ∧
          ws (cleanup None w) = ws w ∧
          next_timer (cleanup None w) = next_timer w) as (Hso1 & Hws1 & Hnt1).
  { unfold cleanup, clear_reconnectTimeout, clearTimeout.
    by destruct (reconnectTimeout w). }
  split.
  - simpl. rewrite Heff. eexists. split; [reflexivity|]. simpl. done.
  - intros s -> Hws. destruct Hp as (Hr & Htimw & Hws'). rewrite Hws' in Hws.
    injection Hws as <-.
    cbn [exec]. unfold step at 1. rewrite Heff.
    unfold step at 1. cbn [sockets set_effect]. rewrite Hso1, Hso.
    rewrite lookup_app_r, Nat.sub_diag by done. cbn [lookup list_lookup mbind option_bind].
    rewrite Hr.
    unfold step at 1.
    assert (∀ w0 : World, sockets w0 = pre ++ [sk] → timers w0 = [] →
              next_timer w0 = next_timer w →
              timers (onclose (target sk) (set_readyState (length pre) CLOSED w0))
                = [(next_timer w, u)] ∧
              sockets (onclose (target sk) (set_readyState (length pre) CLOSED w0))
                = pre ++ [{| readyState := CLOSED; target := u |}]) as Hclose.
    { intros w0 H1 H2 H3. unfold onclose, set_readyState. rewrite H1.
      rewrite lookup_app_r, Nat.sub_diag by done. simpl.
      rewrite H2, H3, Htar. split; [reflexivity|apply insert_snoc]. }
    destruct (Hclose (set_effect None (cleanup None w))) as [Ht2 Hs2];
      [simpl; by rewrite Hso1|exact Htim|exact Hnt1|].
    rewrite Ht2. simpl list_find. rewrite decide_True by done.
    cbn [mbind option_bind fmap option_map snd fst].
    unfold connect, clearTimeout. rewrite Hacc. cbn [exec fst].
    eexists. split; [reflexivity|]. cbn [sockets set_sockets set_timers].
    by rewrite Hs2, insert_snoc.
Qed.

End HookPhases.

(** * Facts about the real-time monitor *)

Section MonitorFacts.

Import Monitor.
Context (JSON_parse : string → option Json).

Lemma monitor_run_snoc st frames event_data :
  run JSON_parse st (frames ++ [event_data]) =
  (onmessage JSON_parse event_data (run JSON_parse st frames)).1.
Proof. unfold run. by rewrite foldl_app. Qed.

(** X18.  Each of the three parts of the monitor's state is replaced as a
    whole by the payload of a frame of its kind and touched by no other
    frame: after any frames, it holds the payload of the last frame of its
    kind, or what it held before if there was none.  A frame on which the
    handler throws ([JSON.parse] fails, or the value is [null]) leaves the
    state as it was. *)
Theorem monitor_keeps_the_last_of_each_kind (st : State) (frames : list string) :
  activeSignals (run JSON_parse st frames) =
    default (activeSignals st) (last (omap (signals_of JSON_parse) frames)) ∧
  marketData (run JSON_parse st frames) =
    default (marketData st) (last (omap (market_data_of JSON_parse) frames)) ∧
  stats (run JSON_parse st frames) =
    default (stats st) (last (omap (stats_of JSON_parse) frames)) ∧
  (∀ event_data st0, (onmessage JSON_parse event_data st0).2 = Throw →
                     (onmessage JSON_parse event_data st0).1 = st0).
Proof.
  split; [|split; [|split]].
  - induction frames as [|d frames IH] using rev_ind; [done|].
    rewrite monitor_run_snoc, omap_app. unfold onmessage. simpl.
    unfold signals_of at 2.
    destruct (JSON_parse d) as [[| | | |]|]; simpl;
      rewrite ?app_nil_r, ?last_snoc; done.
  - induction frames as [|d frames IH] using rev_ind; [done|].
    rewrite monitor_run_snoc, omap_app. unfold onmessage. simpl.
    unfold market_data_of at 2.
    destruct (JSON_parse d) as [[| | | |]|]; simpl;
      rewrite ?app_nil_r, ?last_snoc; done.
  - induction frames as [|d frames IH] using rev_ind; [done|].
    rewrite monitor_run_snoc, omap_app. unfold onmessage. simpl.
    unfold stats_of at 2.
    destruct (JSON_parse d) as [[| | | |]|]; simpl;
      rewrite ?app_nil_r, ?last_snoc; done.
  - intros d st0. unfold onmessage.
    by destruct (JSON_parse d) as [[| | | |]|].
Qed.

End MonitorFacts.


(** * Facts about the socket of the tests *)

Section MockFacts.

Import Mock.

Lemma exec_snoc ops op w : exec (ops ++ [op]) w = step (exec ops w) op.
Proof. unfold exec. by rewrite foldl_app. Qed.

Lemma exec_app_ops ops1 ops2 w : exec (ops1 ++ ops2) w = exec ops2 (exec ops1 w).
Proof. unfold exec. by rewrite foldl_app. Qed.

(** Sends to a socket that is not open pile up in the queue. *)
Lemma sends_queue ds w :
  readyState (socket w) ≠ OPEN →
  exec (Send <$> ds) w =
  on_socket (λ k, set_messageQueue (messageQueue k ++ ds) k) w.
Proof.
  intros Hr. induction ds as [|d ds IH] using rev_ind.
  - destruct w as [[] ? ?]. simpl. unfold on_socket, set_messageQueue. simpl.
    by rewrite app_nil_r.
  - rewrite fmap_app. change (Send <$> [d]) with [Send d].
    rewrite exec_snoc, IH. simpl. unfold send. simpl.
    destruct (readyState (socket w)); [| done | |];
      unfold on_socket, set_messageQueue; simpl; by rewrite app_assoc.
Qed.

(** Sends to an open socket with a handler go to the handler at once. *)
Lemma sends_deliver cb ds w :
  readyState (socket w) = OPEN → onmessage (socket w) = Some cb →
  exec (Send <$> ds) w =
  {| socket := socket w; open_pending := open_pending w;
     calls := calls w ++ ((λ d, (cb, message_event d)) <$> ds) |}.
Proof.
  intros Hr Hm. induction ds as [|d ds IH] using rev_ind.
  - destruct w. simpl. by rewrite app_nil_r.
  - rewrite fmap_app. change (Send <$> [d]) with [Send d].
    rewrite exec_snoc, IH. simpl. unfold send. simpl. rewrite Hr, Hm. simpl.
    by rewrite fmap_app, app_assoc.
Qed.

(** The loop of [processMessageQueue]: the queue ends empty, the messages
    other than the empty string have gone to the handler, in order. *)
Lemma drain_spec cb q w :
  messageQueue (socket w) = q →
  drain cb q w =
  {| socket := set_messageQueue [] (socket w); open_pending := open_pending w;
     calls := calls w ++ ((λ d, (cb, message_event d)) <$> filter (λ d, d ≠ "") q) |}.
Proof.
  revert w. induction q as [|d q IH]; intros w Hq.
  - destruct w as [k ? ?]. simpl in *. rewrite app_nil_r. f_equal.
    destruct k. simpl in *. by subst.
  - cbn [drain]. destruct (String.eqb d "") eqn:E.
    + apply String.eqb_eq in E. subst d. rewrite IH by done.
      rewrite filter_cons_False by tauto. done.
    + apply String.eqb_neq in E. rewrite IH by done.
      rewrite filter_cons_True by done. simpl. by rewrite <- app_assoc.
Qed.

Lemma delivered_calls_app w l :
  delivered {| socket := socket w; open_pending := open_pending w;
               calls := calls w ++ l |}
  = delivered w ++
    omap (λ c : callback * MockEvent,
            match c.2 with message_event data => Some data | _ => None end) l.
Proof. unfold delivered. simpl. by rewrite omap_app. Qed.

Lemma delivered_messages (cb : callback) (ds : list string) :
  omap (λ c : callback * MockEvent,
          match c.2 with message_event data => Some data | _ => None end)
       ((λ d, (cb, message_event d)) <$> ds) = ds.
Proof. induction ds as [|d ds IH]; [done|]. simpl. by f_equal. Qed.

(** X20.  Messages sent to the test socket before it opens are kept and,
    when it opens, handed to the [onmessage] handler in the order they were
    sent, except that empty strings are dropped; the queue is then empty.
    Messages sent after that go to the handler at once, empty strings
    included. *)
Theorem mock_flushes_queue_in_order (u : string) (cb : callback)
    (queued later : list string) :
  let w := exec (Assign message_name (Some cb) ::
                 (Send <$> queued) ++ Fire :: (Send <$> later))
                (construct u) in
  delivered w = filter (λ d, d ≠ "") queued ++ later ∧
  messageQueue (socket w) = [] ∧
  readyState (socket w) = OPEN.
Proof.
  cbn zeta.
  change (Assign message_name (Some cb) :: (Send <$> queued) ++ Fire :: (Send <$> later))
    with ([Assign message_name (Some cb)] ++ (Send <$> queued) ++ [Fire] ++ (Send <$> later)).
  rewrite !exec_app_ops.
  set (w0 := exec [Assign message_name (Some cb)] (construct u)).
  rewrite (sends_queue queued w0) by done.
  set (w1 := on_socket _ w0).
  assert (exec [Fire] w1 =
          {| socket := set_messageQueue [] (set_readyState OPEN (socket w1));
             open_pending := false;
             calls := (λ d, (cb, message_event d)) <$> filter (λ d, d ≠ "") queued |})
    as ->.
  { unfold exec. simpl. unfold opening, processMessageQueue. simpl.
    by rewrite drain_spec. }
  rewrite (sends_deliver cb later) by done. simpl.
  unfold delivered. simpl. by rewrite omap_app, !delivered_messages.
Qed.

(** X21.  [close()] on the test socket is not final: it does not cancel the
    opening that the constructor has set up, so a socket closed before
    that timer fires is open afterwards; and every further call of
    [close()] calls the [onclose] handler again. *)
Theorem mock_close_is_not_final (w : World) (c : callback) (n : nat) :
  (open_pending w = true →
   readyState (socket (exec [CloseOp; Fire] w)) = OPEN) ∧
  (onclose (socket w) = Some c →
   calls (exec (replicate n CloseOp) w) = calls w ++ replicate n (c, close_event) ∧
   readyState (socket (exec (replicate (S n) CloseOp) w)) = CLOSED).
Proof.
  split.
  - intros Hp. unfold exec. simpl. unfold close. simpl.
    assert (∀ w0, open_pending w0 = true →
              readyState (socket (step w0 Fire)) = OPEN) as Hfire.
    { intros w0 H0. simpl. rewrite H0. unfold opening, processMessageQueue.
      simpl. destruct (onopen (socket w0)); simpl;
        (destruct (onmessage (socket w0)) as [cb|]; [|done]);
        by rewrite drain_spec. }
    apply Hfire. by destruct (onclose (socket w)).
  - intros Hc.
    assert (∀ m, calls (exec (replicate m CloseOp) w)
                   = calls w ++ replicate m (c, close_event) ∧
                 onclose (socket (exec (replicate m CloseOp) w)) = Some c ∧
                 (m ≠ 0%nat → readyState (socket (exec (replicate m CloseOp) w)) = CLOSED))
      as Hall.
    { intros m. induction m as [|m (IH1 & IH2 & IH3)].
      - simpl. by rewrite app_nil_r.
      - rewrite replicate_S_end, exec_snoc.
        rewrite (replicate_S_end _ (c, close_event)), app_assoc, <- IH1.
        cbn [step]. unfold close. cbn [socket on_socket set_readyState onclose].
        rewrite IH2. done. }
    split; [apply Hall|]. by apply (Hall (S n)).
Qed.

(** X22.  Once the test socket has opened, what is in its queue is never
    delivered: whatever is done with the socket afterwards, the queue only
    grows, and the messages that reach a handler are among those sent
    afterwards, in their order. *)
Theorem mock_queue_is_never_flushed_later (w : World) (ops : list Op) :
  open_pending w = false →
  messageQueue (socket w) `prefix_of` messageQueue (socket (exec ops w)) ∧
  ∃ l, delivered (exec ops w) = delivered w ++ l ∧ l `sublist_of` sent ops.
Proof.
  intros Hp.
  assert (open_pending (exec ops w) = false ∧
          messageQueue (socket w) `prefix_of` messageQueue (socket (exec ops w)) ∧
          ∃ l, delivered (exec ops w) = delivered w ++ l ∧ l `sublist_of` sent ops)
    as (_ & H); [|exact H].
  induction ops as [|op ops (IHp & IHq & l & IHd & IHl)] using rev_ind.
  - split; [done|]. split; [done|]. exists []. by rewrite app_nil_r.
  - rewrite exec_snoc. unfold sent. rewrite omap_app. fold (sent ops).
    set (w1 := exec ops w) in *.
    destruct op as [name c|event cb|event cb|d| |]; simpl.
    + split; [done|]. split; [by destruct name|]. exists l.
      rewrite app_nil_r. done.
    + split; [done|]. split; [by destruct event|]. exists l.
      rewrite app_nil_r. done.
    + split; [done|]. split; [by destruct event|]. exists l.
      rewrite app_nil_r. done.
    + unfold send.
      destruct (readyState (socket w1)) eqn:Hr; simpl;
        try (split; [done|]; split; [by etrans; [exact IHq|apply prefix_app_r]|];
             exists l; split; [done|]; by apply sublist_inserts_r).
      destruct (onmessage (socket w1)) as [cb|]; simpl.
      * split; [done|]. split; [done|]. exists (l ++ [d]). split.
        -- unfold delivered in *. simpl. rewrite omap_app, IHd. simpl.
           by rewrite app_assoc.
        -- by apply sublist_app.
      * split; [done|]. split; [done|]. exists l. split; [done|].
        by apply sublist_inserts_r.
    + unfold close. simpl. split; [by destruct (onclose (socket w1))|].
      split; [by destruct (onclose (socket w1))|]. exists l. rewrite app_nil_r.
      split; [|done]. destruct (onclose (socket w1)); [|done].
      unfold delivered in *. simpl. rewrite omap_app, IHd. simpl.
      by rewrite app_nil_r.
    + rewrite IHp. split; [done|]. split; [done|]. exists l.
      by rewrite app_nil_r.
Qed.

End MockFacts.

(** * The further facts on sample inputs *)

(** Witness of X3. *)
Lemma ids_stay_distinct_witness :
  NoDup (Panel.ids (Panel.signals
    (Panel.run {| Panel.signals := [Sample.btc 1 46000; Sample.btc 2 3000];
                  Panel.metrics := None |}
       [signal_update (Sample.btc 1 47000); metrics_update Sample.metrics87;
        signal_update (Sample.btc 3 500)]))).
Proof.
  apply ids_stay_distinct. apply (bool_decide_unpack _). vm_compute. exact I.
Defined.

(** Witness of X5: the service after [Sample.shutdown_run]. *)
Lemma service_invariants_witness :
  ∃ w, exec Sample.host Sample.shutdown_run (create Sample.endpoint) = Some w ∧
       well_formed w ∧ url w = Sample.endpoint.
Proof.
  eexists. split; [vm_compute; reflexivity|].
  eapply (service_invariants Sample.host Sample.endpoint Sample.shutdown_run).
  vm_compute. reflexivity.
Defined.

(** Witness of X6: a close event with four callbacks registered. *)
Lemma only_frames_reach_handlers_witness :
  ∃ x, step Sample.host (Close 0%nat) Sample.subscribed = Some x ∧
       invoked x.1 = invoked Sample.subscribed.
Proof.
  eexists. split; [vm_compute; reflexivity|].
  apply (only_frames_reach_handlers Sample.host (Close 0%nat) Sample.subscribed).
  - intros s data. discriminate.
  - vm_compute. reflexivity.
Defined.

(** Witness of X7: callback 5 is new, callback 2 is registered. *)
Lemma registry_add_then_remove_witness :
  registry (removeMessageHandler 5%nat
              (addMessageHandler 5%nat Sample.subscribed).1).1
    = Some [1; 2; 3; 4]%nat ∧
  registry (removeMessageHandler 2%nat
              (addMessageHandler 2%nat Sample.subscribed).1).1
    = Some [1; 3; 4]%nat.
Proof.
  split.
  - destruct (registry_add_then_remove Sample.subscribed [1; 2; 3; 4]%nat 5%nat)
      as (_ & H & _); [reflexivity|].
    apply H. apply (bool_decide_unpack _). vm_compute. exact I.
  - destruct (registry_add_then_remove Sample.subscribed [1; 2; 3; 4]%nat 2%nat)
      as (H & _); [reflexivity|].
    rewrite H. reflexivity.
Defined.

(** Witness of X8: [disconnect()] of the connected service. *)
Lemma disconnect_releases_the_socket_witness :
  ws Sample.connected = Some 0%nat ∧
  ∀ sk, sockets (disconnect Sample.connected).1 !! 0%nat = Some sk →
        is_live sk = false.
Proof.
  split; [reflexivity|]. intros sk.
  destruct (disconnect_releases_the_socket Sample.connected) as (_ & _ & H & _).
  by apply H.
Defined.

(** Witness of X9: a service for a URL without scheme. *)
Lemma rejected_url_never_connects_witness :
  WebSocket_accepts Sample2.strict_host Sample2.bad_url = false ∧
  ∃ w, exec Sample2.strict_host Sample2.retry_run (create Sample2.bad_url) = Some w ∧
       sockets w = [] ∧ (scheduled w ≤ 5)%nat.
Proof.
  split; [reflexivity|]. eexists. split; [vm_compute; reflexivity|].
  match goal with |- sockets ?w = [] ∧ _ =>
    destruct (rejected_url_never_connects Sample2.strict_host Sample2.bad_url
                Sample2.retry_run w) as (H1 & _ & _ & H4);
      [reflexivity|vm_compute; reflexivity|]
  end.
  split; [exact H1|exact H4].
Defined.

(** Witness of X10: the panel unmounts; the service reconnects and a frame
    arrives, but no handler is called. *)
Lemma no_delivery_after_cleanup_witness :
  registry Sample2.mounted = Some [4]%nat ∧
  ∃ w', exec Sample.host Sample2.after_cleanup_run
          (Lifecycle.cleanup 4%nat Sample2.mounted).1 = Some w' ∧
        live_connections w' = 1%nat ∧
        registry w' = Some [] ∧ invoked w' = [].
Proof.
  split; [reflexivity|]. eexists. split; [vm_compute; reflexivity|].
  split; [reflexivity|].
  match goal with |- registry ?w = Some [] ∧ _ =>
    destruct (no_delivery_after_cleanup Sample.host Sample2.mounted 4%nat [4]%nat
                Sample2.after_cleanup_run w) as (_ & H2 & H3)
  end.
  - reflexivity.
  - intros h' Hh'. by apply list_elem_of_singleton in Hh'.
  - intros c Hc. unfold Sample2.after_cleanup_run in Hc.
    repeat (apply elem_of_cons in Hc as [Hc|Hc]; [discriminate Hc|]).
    by apply elem_of_nil in Hc.
  - vm_compute. reflexivity.
  - split; [exact H2|]. rewrite H3. reflexivity.
Defined.

(** Witness of X11: four frames, one of which does not decode. *)
Lemma frames_are_delivered_in_order_witness :
  ∃ w', exec Sample.host (Message 0%nat <$> Sample2.frames) Sample2.watched = Some w' ∧
        invoked w' =
          [(4, metrics_update Sample.metrics87); (5, metrics_update Sample.metrics87);
           (4, Sample.stop_message); (5, Sample.stop_message);
           (4, metrics_update Sample.metrics87); (5, metrics_update Sample.metrics87)]%nat.
Proof.
  destruct (frames_are_delivered_in_order Sample.host Sample2.watched 0%nat
              {| readyState := OPEN; wired := true |} [4; 5]%nat Sample2.frames)
    as [Hex Hinv]; try reflexivity.
  { repeat constructor; by intros [| |]. }
  eexists. split; [exact Hex|]. rewrite (Hinv _ Hex). reflexivity.
Defined.


(** Witness of X13: a second [connect()], then a frame on the first
    socket. *)
Lemma replaced_socket_still_delivers_witness :
  let m := metrics_update Sample.metrics87 in
  ws (connect Sample.host Sample.subscribed).1 = Some 1%nat ∧
  ∃ w', step Sample.host (Message 0%nat "metrics")
          (connect Sample.host Sample.subscribed).1 = Some (w', Ret tt) ∧
        invoked w' = [(1, m); (2, m); (3, m); (4, m)]%nat.
Proof.
  intros m. split; [reflexivity|].
  destruct (replaced_socket_still_delivers Sample.host Sample.subscribed 0%nat
              {| readyState := OPEN; wired := true |} "metrics" m [1; 2; 3; 4]%nat)
    as (_ & w' & H1 & H2); try reflexivity.
  exists w'. split; [exact H1|exact H2].
Defined.

(** Witness of X14: seven outages, seven retries at 2000 ms. *)
Lemma retries_are_capped_per_outage_witness :
  Lifecycle.connected_at Sample.host 0 Sample.connected ∧
  ∃ w', exec Sample.host (Lifecycle.outages 0 7) Sample.connected = Some w' ∧
        Lifecycle.delays w' = replicate 7 2000.
Proof.
  assert (Lifecycle.connected_at Sample.host 0 Sample.connected) as Hc
    by (by repeat split).
  split; [exact Hc|].
  destruct (retries_are_capped_per_outage Sample.host 0 7 Sample.connected Hc)
    as (w' & H1 & _ & H2).
  exists w'. split; [exact H1|exact H2].
Defined.

(** Witness of X15: seven closes, seven retries at 5000 ms. *)
Lemma hook_retries_have_no_cap_witness :
  ∃ w', Hook.exec Sample2.any_url Sample2.hook_run Hook.initial = Some w' ∧
        Hook.delays w' = replicate 7 5000.
Proof.
  eexists. split; [vm_compute; reflexivity|].
  rewrite (hook_retries_have_no_cap Sample2.any_url Sample2.hook_run Hook.initial);
    [reflexivity|vm_compute; reflexivity].
Defined.

(** Witness of X16: the same run of the hook. *)
Lemma hook_is_a_three_phase_machine_witness :
  ∃ w', Hook.exec Sample2.any_url Sample2.hook_run Hook.initial = Some w' ∧
        ∃ p, Hook.in_phase Sample.endpoint w' p.
Proof.
  eexists. split; [vm_compute; reflexivity|].
  eapply (hook_is_a_three_phase_machine Sample2.any_url Sample.endpoint
            (tail Sample2.hook_run)).
  - reflexivity.
  - unfold Sample2.hook_run. simpl. repeat constructor.
  - vm_compute. reflexivity.
Defined.

(** Witness of X17: the hook unmounts while connected. *)
Lemma unmount_leaves_the_socket_open_witness :
  ∃ w, Hook.exec Sample2.any_url [Hook.Mount Sample.endpoint; Hook.Open 0%nat]
         Hook.initial = Some w ∧
       Hook.in_phase Sample.endpoint w Hook.Connected ∧
       ∃ w1, Hook.step Sample2.any_url Hook.Unmount w = Some (w1, Ret tt) ∧
             Hook.sockets w1 = Hook.sockets w.
Proof.
  eexists. split; [vm_compute; reflexivity|].
  match goal with |- Hook.in_phase _ ?w _ ∧ _ =>
    assert (Hook.in_phase Sample.endpoint w Hook.Connected) as Hp
  end.
  { split; [reflexivity|].
    exists [], {| Hook.readyState := OPEN; Hook.target := Sample.endpoint |}.
    by repeat split. }
  split; [exact Hp|].
  destruct (unmount_leaves_the_socket_open Sample2.any_url Sample.endpoint _
              Hook.Connected eq_refl Hp) as [(w1 & H1 & H2 & _) _].
  exists w1. split; [exact H1|exact H2].
Defined.

(** Witness of X18: a frame that does not decode, and [null]. *)
Lemma monitor_keeps_the_last_of_each_kind_witness :
  Monitor.stats (Monitor.run Sample2.monitor_parse Monitor.initial
                   ["stats"; "garbage"; "null"; "signals"])
    = Sample2.monitor_stats ∧
  (Monitor.onmessage Sample2.monitor_parse "null" Monitor.initial).1 = Monitor.initial.
Proof.
  destruct (monitor_keeps_the_last_of_each_kind Sample2.monitor_parse
              Monitor.initial ["stats"; "garbage"; "null"; "signals"])
    as (_ & _ & H3 & H4).
  split; [rewrite H3; reflexivity|]. apply H4. reflexivity.
Defined.


(** Witness of X21: the test socket closed before it opens. *)
Lemma mock_close_is_not_final_witness :
  Mock.open_pending Sample2.mock_socket = true ∧
  Mock.readyState (Mock.socket (Mock.exec [Mock.CloseOp; Mock.Fire] Sample2.mock_socket))
    = OPEN ∧
  Mock.calls (Mock.exec (replicate 3 Mock.CloseOp) Sample2.mock_socket)
    = replicate 3 (1%nat, Mock.close_event).
Proof.
  split; [reflexivity|].
  destruct (mock_close_is_not_final Sample2.mock_socket 1%nat 3) as [H1 H2].
  split; [by apply H1|]. destruct H2 as [H2 _]; [reflexivity|]. exact H2.
Defined.

(** Witness of X22: the message sent too early is never delivered. *)
Lemma mock_queue_is_never_flushed_later_witness :
  Mock.open_pending Sample2.mock_stuck = false ∧
  Mock.messageQueue (Mock.socket Sample2.mock_stuck) = ["early"] ∧
  ["early"] `prefix_of`
    Mock.messageQueue (Mock.socket
      (Mock.exec [Mock.Assign Mock.message_name (Some 2%nat); Mock.Send "late"]
                 Sample2.mock_stuck)) ∧
  Mock.delivered
    (Mock.exec [Mock.Assign Mock.message_name (Some 2%nat); Mock.Send "late"]
               Sample2.mock_stuck) = ["late"].
Proof.
  split; [reflexivity|]. split; [reflexivity|].
  destruct (mock_queue_is_never_flushed_later Sample2.mock_stuck
              [Mock.Assign Mock.message_name (Some 2%nat); Mock.Send "late"] eq_refl)
    as [H1 _].
  split; [exact H1|reflexivity].
Defined.
